(** * ClearFine backend: the appeal-check and extract-fine handlers

    A shallow embedding of the two revisions of the Express server of the
    repository: [src/server.js] (the earlier [/api/appeal-check], whose
    response is parsed directly) and [src/unnamed/part_000] (the later one,
    with the brace-span regex, the logging and the updated
    [createAppealPrompt]).

    JavaScript strings are lists of UTF-16 code units ([N]).  [JSON.parse]
    is embedded as a machine that reads one code unit at a time (lexer mode,
    parser expectation, stack of open containers), so that running it on a
    concatenation is running it on the pieces one after the other.  Numbers
    are kept as exact decimals [m * 10^e]; their truthiness follows the
    rounding of the decimal to an IEEE double (a value rounds to zero below
    half of the smallest subnormal). *)

From Stdlib Require Import List NArith ZArith String Ascii Bool Lia.
Set Warnings "-register-all".
Import ListNotations.
Open Scope N_scope.

(** ** JavaScript strings *)

Definition jsstr := list N.

(** A string literal of the source, as code units. *)
Definition u (s : string) : jsstr := map N_of_ascii (list_ascii_of_string s).

(** A text literal in which ['] stands for a double quote. *)
Definition uq (s : string) : jsstr :=
  map (fun c => if c =? 39 then 34 else c) (u s).

Definition QUOTE : N := 34.
Definition BACKSLASH : N := 92.
Definition LBRACE : N := 123.
Definition RBRACE : N := 125.
Definition LBRACKET : N := 91.
Definition RBRACKET : N := 93.
Definition COMMA : N := 44.
Definition COLON : N := 58.
Definition MINUS : N := 45.
Definition NEWLINE : N := 10.

Fixpoint str_eqb (a b : jsstr) : bool :=
  match a, b with
  | [], [] => true
  | x :: a', y :: b' => (x =? y) && str_eqb a' b'
  | _, _ => false
  end.

(** ** JSON values (the result of [JSON.parse]) *)

Inductive json : Type :=
| JNull
| JBool (b : bool)
| JNum (m : Z) (e : Z)          (* the decimal m * 10^e as written *)
| JStr (s : jsstr)
| JArr (l : list json)
| JObj (l : list (jsstr * json)). (* members in source order, duplicates kept *)

(** A number literal denotes the double nearest to its decimal value; it is
    [+0] or [-0] (falsy) when the decimal is zero or at most [2^-1075]
    (ties round to the even neighbour, which is zero). *)
Definition num_is_zero (m e : Z) : bool :=
  (m =? 0)%Z || ((e <? 0)%Z && (Z.abs m * 2 ^ 1075 <=? 10 ^ (- e))%Z).

(** JavaScript truthiness; [None] is [undefined]. *)
Definition truthy (v : json) : bool :=
  match v with
  | JNull => false
  | JBool b => b
  | JNum m e => negb (num_is_zero m e)
  | JStr s => match s with [] => false | _ => true end
  | JArr _ | JObj _ => true
  end.

Definition truthy_opt (v : option json) : bool :=
  match v with Some w => truthy w | None => false end.

(** [a || b] on JavaScript values. *)
Definition js_or (a b : option json) : option json :=
  if truthy_opt a then a else b.

(** [a || d] where [d] is a literal: the result is always defined. *)
Definition or_default (a : option json) (d : json) : json :=
  match a with Some v => if truthy v then v else d | None => d end.

(** Own data property of a parsed object: [JSON.parse] defines the members
    in order, so a repeated key holds its last value. *)
Fixpoint assoc_last (k : jsstr) (l : list (jsstr * json)) : option json :=
  match l with
  | [] => None
  | (k', v) :: t =>
      match assoc_last k t with
      | Some w => Some w
      | None => if str_eqb k k' then Some v else None
      end
  end.

(** [x.k]: [None] is a TypeError ([x] is [null] or [undefined]); otherwise
    the property's value ([None] inside is [undefined]).  The property names
    the handlers read are neither array indices, nor ["length"], nor names
    of [Object.prototype], so only an object's own members answer them. *)
Definition prop (x : option json) (k : jsstr) : option (option json) :=
  match x with
  | None | Some JNull => None
  | Some (JObj l) => Some (assoc_last k l)
  | Some _ => Some None
  end.

(** ** [JSON.parse] *)

Definition is_json_ws (c : N) : bool :=
  (c =? 32) || (c =? 9) || (c =? 10) || (c =? 13).

Definition is_digit (c : N) : bool := (48 <=? c) && (c <=? 57).

(** Code units a number literal may be made of. *)
Definition is_numchar (c : N) : bool :=
  is_digit c || (c =? 45) || (c =? 43) || (c =? 46) || (c =? 101) || (c =? 69).

Definition hex_val (c : N) : option N :=
  if (48 <=? c) && (c <=? 57) then Some (c - 48)
  else if (97 <=? c) && (c <=? 102) then Some (c - 87)
  else if (65 <=? c) && (c <=? 70) then Some (c - 55)
  else None.

(** The one-character escapes after a backslash. *)
Definition short_escape (c : N) : option N :=
  if c =? 34 then Some 34
  else if c =? 92 then Some 92
  else if c =? 47 then Some 47
  else if c =? 98 then Some 8
  else if c =? 102 then Some 12
  else if c =? 110 then Some 10
  else if c =? 114 then Some 13
  else if c =? 116 then Some 9
  else None.

Fixpoint span_digits (cs : jsstr) : jsstr * jsstr :=
  match cs with
  | c :: t => if is_digit c then let (d, r) := span_digits t in (c :: d, r) else ([], cs)
  | [] => ([], [])
  end.

Definition digits_value (ds : jsstr) : Z :=
  fold_left (fun acc d => (acc * 10 + Z.of_N (d - 48))%Z) ds 0%Z.

(** The number grammar of JSON (an optional minus, then [0] or a digit
    string not starting with [0], an optional fraction [.digits], an
    optional exponent [e] or [E], optional sign, digits), all of [cs]
    consumed; the result is [(m, e)] with value [m * 10^e]. *)
Definition parse_number (cs : jsstr) : option (Z * Z) :=
  let '(neg, cs1) := match cs with 45 :: t => (true, t) | _ => (false, cs) end in
  let '(ip, cs2) := span_digits cs1 in
  let int_ok := match ip with [] => false | [48] => true | 48 :: _ => false | _ => true end in
  if negb int_ok then None else
  let frac := match cs2 with
              | 46 :: t => let '(f, r) := span_digits t in
                           match f with [] => None | _ => Some (f, r) end
              | _ => Some ([], cs2)
              end in
  match frac with
  | None => None
  | Some (fp, cs3) =>
      let expo := match cs3 with
                  | x :: t => if (x =? 101) || (x =? 69) then
                                let '(eneg, t1) := match t with
                                                   | 45 :: t' => (true, t')
                                                   | 43 :: t' => (false, t')
                                                   | _ => (false, t) end in
                                let '(ed, r) := span_digits t1 in
                                match ed, r with
                                | _ :: _, [] => Some (if eneg then (- digits_value ed)%Z
                                                      else digits_value ed)
                                | _, _ => None
                                end
                              else None
                  | [] => Some 0%Z
                  end in
      match expo with
      | None => None
      | Some ex =>
          let mag := digits_value (ip ++ fp) in
          Some (if neg then (- mag)%Z else mag, (ex - Z.of_nat (List.length fp))%Z)
      end
  end.

(** Literals [true], [false], [null]. *)
Inductive lit := LTrue | LFalse | LNull.

Definition lit_val (l : lit) : json :=
  match l with LTrue => JBool true | LFalse => JBool false | LNull => JNull end.

(** Open containers; the head of the stack is the innermost. *)
Inductive frame :=
| FArr (acc : list json)                             (* elements, reversed *)
| FObj (acc : list (jsstr * json)) (key : option jsstr). (* members, reversed *)

(** What the parser accepts next when no token is being read. *)
Inductive expect :=
| XValue | XValueOrEnd | XKeyOrEnd | XKey | XColon | XCommaOrEnd
| XDone (v : json).

(** The token being read. *)
Inductive lex :=
| LIdle
| LStr (buf : jsstr)          (* string contents so far, reversed *)
| LEsc (buf : jsstr)          (* after a backslash *)
| LUni (buf : jsstr) (k : nat) (acc : N)  (* in \uXXXX, k hex digits to go *)
| LNum (run : jsstr)          (* number literal so far, reversed *)
| LLit (rest : jsstr) (l : lit). (* rest of a literal's letters *)

Record state := mk { lexer : lex; mode : expect; stack : list frame }.

Definition init : state := mk LIdle XValue [].

(** A value is complete: it goes into the innermost container, or ends the
    document. *)
Definition complete (v : json) (fs : list frame) : option (expect * list frame) :=
  match fs with
  | [] => Some (XDone v, [])
  | FArr acc :: fs' => Some (XCommaOrEnd, FArr (v :: acc) :: fs')
  | FObj acc (Some k) :: fs' => Some (XCommaOrEnd, FObj ((k, v) :: acc) None :: fs')
  | FObj _ None :: _ => None
  end.

Definition close (v : json) (fs : list frame) : option state :=
  match complete v fs with
  | Some (m, fs') => Some (mk LIdle m fs')
  | None => None
  end.

Definition accepts_value (m : expect) : bool :=
  match m with XValue | XValueOrEnd => true | _ => false end.

Definition value_start (c : N) (m : expect) (fs : list frame) : option state :=
  if c =? LBRACE then Some (mk LIdle XKeyOrEnd (FObj [] None :: fs))
  else if c =? LBRACKET then Some (mk LIdle XValueOrEnd (FArr [] :: fs))
  else if c =? QUOTE then Some (mk (LStr []) m fs)
  else if c =? 116 then Some (mk (LLit (u "rue") LTrue) m fs)
  else if c =? 102 then Some (mk (LLit (u "alse") LFalse) m fs)
  else if c =? 110 then Some (mk (LLit (u "ull") LNull) m fs)
  else if (c =? MINUS) || is_digit c then Some (mk (LNum [c]) m fs)
  else None.

Definition close_arr (fs : list frame) : option state :=
  match fs with FArr acc :: fs' => close (JArr (rev acc)) fs' | _ => None end.

Definition close_obj (fs : list frame) : option state :=
  match fs with FObj acc None :: fs' => close (JObj (rev acc)) fs' | _ => None end.

Definition idle_step (m : expect) (fs : list frame) (c : N) : option state :=
  if is_json_ws c then Some (mk LIdle m fs) else
  match m with
  | XDone _ => None
  | XColon => if c =? COLON then Some (mk LIdle XValue fs) else None
  | XCommaOrEnd =>
      if c =? COMMA then
        match fs with
        | FArr _ :: _ => Some (mk LIdle XValue fs)
        | FObj _ _ :: _ => Some (mk LIdle XKey fs)
        | [] => None
        end
      else if c =? RBRACKET then close_arr fs
      else if c =? RBRACE then close_obj fs
      else None
  | XKeyOrEnd =>
      if c =? QUOTE then Some (mk (LStr []) m fs)
      else if c =? RBRACE then close_obj fs
      else None
  | XKey => if c =? QUOTE then Some (mk (LStr []) m fs) else None
  | XValueOrEnd => if c =? RBRACKET then close_arr fs else value_start c m fs
  | XValue => value_start c m fs
  end.

(** A closing quote: the string is a member name in key position, a value
    otherwise. *)
Definition end_string (s : jsstr) (m : expect) (fs : list frame) : option state :=
  match m with
  | XKeyOrEnd | XKey =>
      match fs with
      | FObj acc None :: fs' => Some (mk LIdle XColon (FObj acc (Some s) :: fs'))
      | _ => None
      end
  | _ => close (JStr s) fs
  end.

Definition step (st : state) (c : N) : option state :=
  let m := mode st in
  let fs := stack st in
  match lexer st with
  | LIdle => idle_step m fs c
  | LStr buf =>
      if c =? QUOTE then end_string (rev buf) m fs
      else if c =? BACKSLASH then Some (mk (LEsc buf) m fs)
      else if c <? 32 then None
      else Some (mk (LStr (c :: buf)) m fs)
  | LEsc buf =>
      match short_escape c with
      | Some d => Some (mk (LStr (d :: buf)) m fs)
      | None => if c =? 117 then Some (mk (LUni buf 4 0) m fs) else None
      end
  | LUni buf k acc =>
      match hex_val c with
      | Some d =>
          match k with
          | S O => Some (mk (LStr ((acc * 16 + d) :: buf)) m fs)
          | _ => Some (mk (LUni buf (pred k) (acc * 16 + d)) m fs)
          end
      | None => None
      end
  | LNum run =>
      if is_numchar c then Some (mk (LNum (c :: run)) m fs)
      else match parse_number (rev run) with
           | Some (mm, e) =>
               match complete (JNum mm e) fs with
               | Some (m', fs') => idle_step m' fs' c
               | None => None
               end
           | None => None
           end
  | LLit rest l =>
      match rest with
      | x :: rest' =>
          if c =? x then
            match rest' with
            | [] => close (lit_val l) fs
            | _ => Some (mk (LLit rest' l) m fs)
            end
          else None
      | [] => None
      end
  end.

Fixpoint run (st : state) (t : jsstr) : option state :=
  match t with
  | [] => Some st
  | c :: t' => match step st c with Some st' => run st' t' | None => None end
  end.

(** End of the text: a pending number ends, and the document must be one
    complete value. *)
Definition finish (st : state) : option json :=
  match lexer st with
  | LIdle => match mode st, stack st with XDone v, [] => Some v | _, _ => None end
  | LNum r =>
      match parse_number (rev r) with
      | Some (mm, e) =>
          match complete (JNum mm e) (stack st) with
          | Some (XDone v, []) => Some v
          | _ => None
          end
      | None => None
      end
  | _ => None
  end.

(** [JSON.parse(text)]: [None] is the SyntaxError it throws. *)
Definition json_parse (t : jsstr) : option json :=
  match run init t with Some st => finish st | None => None end.

Example json_parse_ex1 :
  json_parse (uq " {'a': [1, -2.5e1, true, null], 'b': 'x\ny'} ")
  = Some (JObj [(u "a", JArr [JNum 1 0; JNum (-25) 0; JBool true; JNull]);
                (u "b", JStr [120; 10; 121])]).
Proof. vm_compute. reflexivity. Qed.

Example json_parse_ex_errors :
  json_parse (uq "{'a': 1,}") = None /\ json_parse (uq "[01]") = None /\
  json_parse (uq "'a' x") = None /\ json_parse (u "Sure: {}") = None /\
  json_parse (uq "{'a':1,'a':2}") = Some (JObj [(u "a", JNum 1 0); (u "a", JNum 2 0)]).
Proof. vm_compute. repeat split. Qed.

(** ** [text.match(/\{[\s\S]*\}/)]

    The regex engine tries the start positions from the left; at a ['{'] the
    greedy [[\s\S]*] takes the rest of the text and backtracks to the
    longest prefix that ends in ['}']. *)

(** The longest prefix of [t] that ends in ['}']. *)
Fixpoint greedy_close (t : jsstr) : option jsstr :=
  match t with
  | [] => None
  | c :: t' =>
      match greedy_close t' with
      | Some p => Some (c :: p)
      | None => if c =? RBRACE then Some [c] else None
      end
  end.

Fixpoint brace_match (t : jsstr) : option jsstr :=
  match t with
  | [] => None
  | c :: t' =>
      if c =? LBRACE then
        match greedy_close t' with
        | Some body => Some (c :: body)
        | None => brace_match t'
        end
      else brace_match t'
  end.

Example brace_match_ex :
  brace_match (u "x {a} y {b} z") = Some (u "{a} y {b}") /\
  brace_match (u "} {") = None /\ brace_match (u "no json") = None.
Proof. vm_compute. repeat split. Qed.

(** ** [.replace(/```json\n?/g, '').replace(/```\n?/g, '').trim()] *)

Fixpoint is_prefix (p t : jsstr) : bool :=
  match p, t with
  | [], _ => true
  | x :: p', y :: t' => (x =? y) && is_prefix p' t'
  | _, [] => false
  end.

(** Global replacement of [pat] followed by an optional newline: matches
    are found left to right and do not overlap; [skip] counts the code
    units of the current match still to drop. *)
Fixpoint replace_fence (pat : jsstr) (skip : nat) (t : jsstr) : jsstr :=
  match t with
  | [] => []
  | c :: t' =>
      match skip with
      | S k => replace_fence pat k t'
      | O =>
          if is_prefix pat t then
            let rest := skipn (List.length pat) t in
            let n := (List.length pat
                      + match rest with x :: _ => if N.eqb x NEWLINE then 1 else 0 | [] => 0 end)%nat in
            replace_fence pat (pred n) t'
          else c :: replace_fence pat O t'
      end
  end.

(** WhiteSpace and LineTerminator code units, which [String.prototype.trim]
    removes. *)
Definition is_js_space (c : N) : bool :=
  (c =? 9) || (c =? 10) || (c =? 11) || (c =? 12) || (c =? 13) || (c =? 32)
  || (c =? 160) || (c =? 5760) || ((8192 <=? c) && (c <=? 8202))
  || (c =? 8232) || (c =? 8233) || (c =? 8239) || (c =? 8287)
  || (c =? 12288) || (c =? 65279).

Fixpoint drop_space (t : jsstr) : jsstr :=
  match t with
  | c :: t' => if is_js_space c then drop_space t' else t
  | [] => []
  end.

Definition trim (t : jsstr) : jsstr := rev (drop_space (rev (drop_space t))).

Definition strip_fences (t : jsstr) : jsstr :=
  trim (replace_fence (u "```") O (replace_fence (u "```json") O t)).

Example strip_fences_ex :
  strip_fences (u "```json
{}
``` ") = u "{}" /\ strip_fences (u "a```b```") = u "ab".
Proof. vm_compute. split; reflexivity. Qed.

(** ** Handlers *)

Notation "'let*' x ':=' c 'in' k" :=
  (match c with Some x => k | None => None end)
  (at level 200, x name, c at level 100, k at level 200).

(** The message of an error the handler catches: its own [new Error(msg)],
    the provider's error, or one the engine raises (whose wording is the
    engine's). *)
Inductive detail := DMsg (s : jsstr) | DSyntaxError | DTypeError.

Inductive response :=
| Ok200 (body : json)                          (* res.json(body) *)
| Err400 (error : jsstr)                       (* res.status(400).json({error}) *)
| Err500 (error : jsstr) (details : detail).   (* res.status(500).json({error, details}) *)

(** ** Template literals: [`${v}`] applies ToString to [v]

    The text of a value is a list of pieces: code units, or a number, which
    stands for what [Number::toString] writes for the double its literal
    denotes (digits, sign, exponent: never the empty string). *)
Inductive piece := PText (s : jsstr) | PNum (m e : Z).

Definition rendered := list piece.

(** ToString of a value [JSON.parse] built ([None] is a TypeError).  An
    array is [join(',')] of its elements, [null] elements giving the empty
    string.  An object converts through [toString] then [valueOf]: with no
    own [toString] member the inherited [Object.prototype.toString] gives
    ["[object Object]"]; an own [toString] member is never callable (JSON
    has no functions), and the inherited [valueOf] returns the object
    itself, which is no primitive, so the conversion throws. *)
Fixpoint to_text (v : json) : option rendered :=
  match v with
  | JNull => Some [PText (u "null")]
  | JBool b => Some [PText (if b then u "true" else u "false")]
  | JNum m e => Some [PNum m e]
  | JStr s => Some [PText s]
  | JArr l =>
      (fix join (l : list json) : option rendered :=
         match l with
         | [] => Some []
         | x :: l' =>
             let* px := match x with JNull => Some [] | _ => to_text x end in
             let* rest := join l' in
             Some (px ++ match l' with [] => [] | _ :: _ => PText (u ",") :: rest end)
         end) l
  | JObj l =>
      match assoc_last (u "toString") l with
      | Some _ => None
      | None => Some [PText (u "[object Object]")]
      end
  end.

(** [`${x}`] for a value that may be [undefined]. *)
Definition render (x : option json) : option rendered :=
  match x with None => Some [PText (u "undefined")] | Some v => to_text v end.

Example to_text_ex :
  render None = Some [PText (u "undefined")] /\
  to_text (JArr [JNum 1 0; JNull; JStr (u "a")]) = Some [PNum 1 0; PText (u ","); PText (u ","); PText (u "a")] /\
  to_text (JArr []) = Some [] /\
  to_text (JObj [(u "a", JNum 1 0)]) = Some [PText (u "[object Object]")] /\
  to_text (JObj [(u "toString", JNum 1 0)]) = None /\
  to_text (JArr [JObj [(u "toString", JNull)]]) = None.
Proof. vm_compute. repeat split. Qed.

(** The texts [createAppealPrompt] interpolates into its fixed template. *)
Record appeal_prompt := {
  p_contravention_code : rendered;
  p_location : rendered;
  p_date : rendered;
  p_amount : rendered;
  p_fine_reason : rendered;
  p_category : rendered;
  p_selected_reason : rendered;
  p_additional_details : rendered }.

Inductive upstream_request :=
| AppealChat (p : appeal_prompt)                (* system + user chat messages *)
| VisionChat (mimetype : jsstr) (image : list N). (* text + data:<mime>;base64 image *)

(** What [await openai.chat.completions.create(...)] gives: the first
    choice's message content, or the error the call throws. *)
Inductive upstream := Reply (content : jsstr) | CallFailed (message : jsstr).

(** A handler either responds at once or calls the provider once and
    responds from its answer. *)
Inductive action :=
| Done (r : response)
| Call (q : upstream_request) (k : upstream -> response).

Definition typeof_string (v : option json) : bool :=
  match v with Some (JStr _) => true | _ => false end.

Definition typeof_object (v : option json) : bool :=
  match v with Some (JObj _ | JArr _ | JNull) => true | _ => false end.

(** [!a.appeal_strength || !a.confidence_score || !a.reasoning_summary],
    negated: [Some true] when the structure check passes, [None] when the
    property read throws. *)
Definition structure_ok (a : json) : option bool :=
  let* s := prop (Some a) (u "appeal_strength") in
  if negb (truthy_opt s) then Some false else
  let* c := prop (Some a) (u "confidence_score") in
  if negb (truthy_opt c) then Some false else
  let* r := prop (Some a) (u "reasoning_summary") in
  Some (truthy_opt r).

Definition assessment (strength : jsstr) (score : Z) (summary : jsstr) : json :=
  JObj [(u "appeal_strength", JStr strength);
        (u "confidence_score", JNum score 0);
        (u "reasoning_summary", JStr summary)].

Definition appeal_error : jsstr := u "Failed to analyze appeal chances".

Definition missing_fields : jsstr :=
  u "Missing required fields: fineDetails and appealReason are required".

(** [POST /api/appeal-check], for a revision's [createAppealPrompt] and its
    recovery of the provider's text. *)
Definition appeal_check
    (build : option json -> option json -> option appeal_prompt)
    (recover : jsstr -> response) (body : option json) : action :=
  match prop body (u "fineDetails"), prop body (u "appealReason") with
  | Some fd, Some ar =>
      if negb (truthy_opt fd) || negb (truthy_opt ar) then Done (Err400 missing_fields)
      else match build fd ar with
           | None => Done (Err500 appeal_error DTypeError)
           | Some p =>
               Call (AppealChat p) (fun up =>
                 match up with
                 | Reply t => recover t
                 | CallFailed m => Err500 appeal_error (DMsg m)
                 end)
           end
  | _, _ => Done (Err500 appeal_error DTypeError)
  end.

(** [POST /api/extract-fine]: the uploaded files by field name
    ([req.files]); several files sent under one field name make an
    array. *)
Record upload := { file_name : jsstr; file_mimetype : jsstr; file_data : list N }.

Inductive file_field := FOne (f : upload) | FMany (fs : list upload).

Fixpoint find_file (k : jsstr) (fs : list (jsstr * file_field)) : option file_field :=
  match fs with
  | [] => None
  | (k', f) :: t => if str_eqb k k' then Some f else find_file k t
  end.

Definition base64_length (n : nat) : nat := (4 * ((n + 2) / 3))%nat.

Definition extract_error : jsstr := u "Failed to extract fine data".

(** The [data] object of the response: each key read from the parsed value
    and defaulted with [|| ""]. *)
Fixpoint extract_fields (keys : list jsstr) (v : json) : option (list (jsstr * json)) :=
  match keys with
  | [] => Some []
  | k :: ks =>
      let* x := prop (Some v) k in
      let* r := extract_fields ks v in
      Some ((k, or_default x (JStr [])) :: r)
  end.

Definition extract_recover (keys : list jsstr) (t : jsstr) : response :=
  match json_parse (strip_fences t) with
  | None => Err500 extract_error DSyntaxError
  | Some v =>
      match extract_fields keys v with
      | None => Err500 extract_error DTypeError
      | Some data => Ok200 (JObj [(u "success", JBool true); (u "data", JObj data)])
      end
  end.

Definition extract_fine (keys : list jsstr) (files : option (list (jsstr * file_field))) : action :=
  match files with
  | None => Done (Err400 (u "No image file provided"))
  | Some fl =>
      match find_file (u "image") fl with
      | None => Done (Err400 (u "No image file provided"))
      (* an array has no [data]: reading [imageBuffer.length] throws *)
      | Some (FMany _) => Done (Err500 extract_error DTypeError)
      | Some (FOne f) =>
          if (List.length (file_data f) =? 0)%nat then Done (Err400 (u "Image file is empty"))
          else if (base64_length (List.length (file_data f)) =? 0)%nat
          then Done (Err400 (u "Failed to process image"))
          else Call (VisionChat (file_mimetype f) (file_data f)) (fun up =>
                 match up with
                 | Reply t => extract_recover keys t
                 | CallFailed m => Err500 extract_error (DMsg m)
                 end)
      end
  end.

(** The earlier revision, [src/server.js]. *)
Module ServerJs.

Definition extract_keys : list jsstr :=
  [u "fineAmount"; u "infractionDate"; u "locationAddress"; u "carRegistration";
   u "fineReferenceNumber"; u "allegedContravention"].

Definition fallback : json :=
  assessment (u "medium") 50
    (u "Unable to analyze the appeal details properly. Please review your appeal reason and try again.").

Definition invalid_structure : jsstr := u "Invalid response structure from AI".

(** [JSON.parse(response)], the fallback on a SyntaxError, then the
    structure check, which throws. *)
Definition recover (t : jsstr) : response :=
  let a := match json_parse t with Some v => v | None => fallback end in
  match structure_ok a with
  | None => Err500 appeal_error DTypeError
  | Some true => Ok200 a
  | Some false => Err500 appeal_error (DMsg invalid_structure)
  end.

(** The template reads each property and converts it, left to right. *)
Definition createAppealPrompt (fd ar : option json) : option appeal_prompt :=
  let* cc := prop fd (u "contravention_code") in
  let* rcc := render cc in
  let* loc := prop fd (u "location") in
  let* rloc := render loc in
  let* dt := prop fd (u "date") in
  let* rdt := render dt in
  let* am := prop fd (u "amount") in
  let* ram := render am in
  let* rs := prop fd (u "reason") in
  let* rrs := render rs in
  let* cat := prop ar (u "category") in
  let* rcat := render cat in
  let* sel := prop ar (u "selected_reason") in
  let* rsel := render sel in
  let* un := prop ar (u "user_note") in
  let* rdet := to_text (or_default un (JStr (u "None provided"))) in
  Some {| p_contravention_code := rcc; p_location := rloc; p_date := rdt; p_amount := ram;
          p_fine_reason := rrs; p_category := rcat; p_selected_reason := rsel;
          p_additional_details := rdet |}.

Definition appeal_check_handler := appeal_check createAppealPrompt recover.
Definition extract_fine_handler := extract_fine extract_keys.

End ServerJs.

(** The later revision, [src/unnamed/part_000]. *)
Module Part000.

Definition extract_keys : list jsstr :=
  [u "fineAmount"; u "infractionDate"; u "locationAddress"; u "carRegistration";
   u "fineReferenceNumber"].

Definition parse_fallback : json :=
  assessment (u "medium") 50
    (u "Unable to parse specific analysis, but medical emergencies usually constitute strong grounds for appeal.").

Definition structure_fallback : json :=
  assessment (u "medium") 50 (u "Response structure incomplete. Please review evidence.").

Definition invalid_format : jsstr := u "AI response format was invalid".

(** The text [recover] hands to [JSON.parse]: the regex match, or the
    thrown error when there is none. *)
Definition recover (t : jsstr) : response :=
  match brace_match t with
  | None => Err500 appeal_error (DMsg invalid_format)
  | Some s =>
      let a := match json_parse s with Some v => v | None => parse_fallback end in
      match structure_ok a with
      | None => Err500 appeal_error DTypeError
      | Some true => Ok200 a
      | Some false => Ok200 structure_fallback
      end
  end.

(** [createAppealPrompt]'s mapping of the appeal reason: (category,
    selected reason, additional details). *)
Definition appeal_reason_fields (ar : option json) : option (json * json * json) :=
  if typeof_string ar then
    match ar with
    | Some v => Some (JStr (u "General"), v, JStr (u "None provided"))
    | None => None
    end
  else if typeof_object ar then
    let* cat := prop ar (u "category") in
    let* sel := prop ar (u "selected_reason") in
    let* rs := prop ar (u "reason") in
    let* un := prop ar (u "user_note") in
    let* pn := prop ar (u "personal_note") in
    Some (or_default cat (JStr (u "General")),
          or_default (js_or sel rs) (JStr (u "Unknown")),
          or_default (js_or un pn) (JStr (u "None provided")))
  else Some (JStr (u "General"), JStr (u "Unknown"), JStr (u "None provided")).

Definition createAppealPrompt (fd ar : option json) : option appeal_prompt :=
  let* rs := prop fd (u "reason") in
  let* ds := prop fd (u "description") in
  let* ty := prop fd (u "type") in
  let* dt := prop fd (u "date") in
  let* tm := prop fd (u "time") in
  let* am := prop fd (u "amount") in
  let* cc := prop fd (u "contravention_code") in
  let* loc := prop fd (u "location") in
  let* fields := appeal_reason_fields ar in
  let '(cat, sel, det) := fields in
  (* the template, in its order *)
  let* rcc := to_text (or_default cc (JStr (u "Not specified"))) in
  let* rloc := to_text (or_default loc (JStr (u "Unknown"))) in
  let* rdt := to_text (or_default (js_or dt tm) (JStr (u "Unknown"))) in
  let* ram := to_text (or_default am (JStr (u "Unknown"))) in
  let* rrs := to_text (or_default (js_or rs (js_or ds ty)) (JStr (u "Unknown"))) in
  let* rcat := to_text cat in
  let* rsel := to_text sel in
  let* rdet := to_text det in
  Some {| p_contravention_code := rcc; p_location := rloc; p_date := rdt; p_amount := ram;
          p_fine_reason := rrs; p_category := rcat; p_selected_reason := rsel;
          p_additional_details := rdet |}.

Definition appeal_check_handler := appeal_check createAppealPrompt recover.
Definition extract_fine_handler := extract_fine extract_keys.

End Part000.

(** A [fineDetails] member with an own [toString] makes the template throw
    before the provider is called, in both revisions. *)
Example appeal_check_template_throws :
  ServerJs.appeal_check_handler
    (Some (JObj [(u "fineDetails", JObj [(u "location", JObj [(u "toString", JNum 1 0)])]);
                 (u "appealReason", JStr (u "Medical emergency"))]))
    = Done (Err500 appeal_error DTypeError) /\
  Part000.appeal_check_handler
    (Some (JObj [(u "fineDetails", JObj [(u "location", JObj [(u "toString", JNum 1 0)])]);
                 (u "appealReason", JStr (u "Medical emergency"))]))
    = Done (Err500 appeal_error DTypeError).
Proof. vm_compute. split; reflexivity. Qed.

Example part000_recover_ex :
  Part000.recover (uq "```json
{'appeal_strength':'strong','confidence_score':80,'reasoning_summary':'ok'}
```")
  = Ok200 (assessment (u "strong") 80 (u "ok")) /\
  Part000.recover (u "no json here") = Err500 appeal_error (DMsg Part000.invalid_format) /\
  Part000.recover (uq "{'appeal_strength':'weak'}") = Ok200 Part000.structure_fallback /\
  ServerJs.recover (uq "```json {'a':1} ```") =
    Ok200 ServerJs.fallback.
Proof. vm_compute. repeat split. Qed.


(** The keys the structure check reads. *)
Definition required_keys : list jsstr :=
  [u "appeal_strength"; u "confidence_score"; u "reasoning_summary"].

(** A request body that passes the field check of [/api/appeal-check]. *)
Definition sample_request : json :=
  JObj [(u "fineDetails", JObj [(u "location", JStr (u "High Street"));
                                (u "amount", JStr (u "65.00"))]);
        (u "appealReason", JStr (u "Medical emergency"))].

(** ** The JSON text of an assessment

    Specification side: the texts the round-trip property of the
    specification starts from, as ECMAScript's [JSON.stringify] writes an
    assessment object (QuoteJSONString for the strings, the decimal form of
    an integer for the score). *)

Definition hex_digit (d : N) : N := if d <? 10 then 48 + d else 87 + d.

(** [\uXXXX] with lowercase hexadecimal digits. *)
Definition unicode_escape (c : N) : jsstr :=
  [BACKSLASH; 117; hex_digit (c / 16 / 16 / 16); hex_digit ((c / 16 / 16) mod 16);
   hex_digit ((c / 16) mod 16); hex_digit (c mod 16)].

Definition is_high_surrogate (c : N) : bool := (55296 <=? c) && (c <=? 56319).
Definition is_low_surrogate (c : N) : bool := (56320 <=? c) && (c <=? 57343).

(** One code unit, knowing whether the previous one is a leading surrogate
    and the next one a trailing surrogate: the short escapes, [\u] for the
    other control characters and for unpaired surrogates, the unit itself
    otherwise. *)
Definition escape_unit (after_high before_low : bool) (c : N) : jsstr :=
  if c =? 8 then [BACKSLASH; 98]
  else if c =? 9 then [BACKSLASH; 116]
  else if c =? 10 then [BACKSLASH; 110]
  else if c =? 12 then [BACKSLASH; 102]
  else if c =? 13 then [BACKSLASH; 114]
  else if c =? QUOTE then [BACKSLASH; QUOTE]
  else if c =? BACKSLASH then [BACKSLASH; BACKSLASH]
  else if (c <? 32) || (is_high_surrogate c && negb before_low)
          || (is_low_surrogate c && negb after_high)
  then unicode_escape c
  else [c].

Fixpoint quote_units (after_high : bool) (s : jsstr) : jsstr :=
  match s with
  | [] => []
  | c :: t =>
      escape_unit after_high
        (match t with x :: _ => is_low_surrogate x | [] => false end) c
      ++ quote_units (is_high_surrogate c) t
  end.

(** QuoteJSONString. *)
Definition quote_json (s : jsstr) : jsstr := QUOTE :: quote_units false s ++ [QUOTE].

Fixpoint digits_rev (fuel : nat) (n : N) : jsstr :=
  match fuel with
  | O => []
  | S f => (48 + n mod 10) :: (if n <? 10 then [] else digits_rev f (n / 10))
  end.

(** The decimal form of a non-negative integer below [10^21]. *)
Definition decimal (n : N) : jsstr := rev (digits_rev 21 n).

Definition integer_to_string (z : Z) : jsstr :=
  if (z <? 0)%Z then MINUS :: decimal (Z.to_N (- z)) else decimal (Z.to_N z).

Definition assessment_members (strength : jsstr) (score : Z) (summary : jsstr) : jsstr :=
  quote_json (u "appeal_strength") ++ COLON :: quote_json strength ++ COMMA ::
  quote_json (u "confidence_score") ++ COLON :: integer_to_string score ++ COMMA ::
  quote_json (u "reasoning_summary") ++ COLON :: quote_json summary.

(** [JSON.stringify(assessment strength score summary)]. *)
Definition stringify_assessment (strength : jsstr) (score : Z) (summary : jsstr) : jsstr :=
  LBRACE :: assessment_members strength score summary ++ [RBRACE].

Example stringify_assessment_ex :
  stringify_assessment (u "weak") 7 [34; 10; 1; 56832] =
  uq "{'appeal_strength':'weak','confidence_score':7,'reasoning_summary':'\'\n\u0001\ude00'}" /\
  json_parse (stringify_assessment (u "weak") 7 [34; 10; 1; 56832]) =
  Some (assessment (u "weak") 7 [34; 10; 1; 56832]).
Proof. vm_compute. split; reflexivity. Qed.

(** ** The order of strategies the specification describes

    Specification side: strip the code fences, parse the stripped text as
    an object, and only when that fails parse the span from its first ['{']
    to its last ['}']. *)
Definition spec_layered_parse (t : jsstr) : option json :=
  let c := strip_fences t in
  match json_parse c with
  | Some (JObj l) => Some (JObj l)
  | _ => match brace_match c with Some s => json_parse s | None => None end
  end.

(** ** Invariants and checks used in the proofs *)

(** The outermost open container is an object. *)
Fixpoint bottom_obj (fs : list frame) : bool :=
  match fs with
  | [] => false
  | f :: fs' =>
      match fs' with
      | [] => match f with FObj _ _ => true | FArr _ => false end
      | _ => bottom_obj fs'
      end
  end.

(** The document read so far is an object, open or complete. *)
Definition obj_started (st : state) : Prop :=
  bottom_obj (stack st) = true \/
  (stack st = [] /\ lexer st = LIdle /\ exists l, mode st = XDone (JObj l)).

(** The document read so far can still end as an object: nothing read yet,
    or an object started. *)
Definition obj_possible (st : state) : Prop :=
  (stack st = [] /\ lexer st = LIdle /\
   (mode st = XValue \/ mode st = XValueOrEnd \/ mode st = XColon)) \/
  obj_started st.

Definition done_obj (l : list (jsstr * json)) : state := mk LIdle (XDone (JObj l)) [].

Definition all_ws (t : jsstr) : Prop := Forall (fun c => is_json_ws c = true) t.


(** ** Lemmas on texts and the brace regex *)

Lemma run_app : forall p r st,
  run st (p ++ r) = match run st p with Some st' => run st' r | None => None end.
Proof.
  induction p as [|c p IH]; intros r st; simpl; [reflexivity|].
  destruct (step st c); [apply IH | reflexivity].
Qed.

Lemma first_split : forall (x : N) t, In x t ->
  exists pre r, t = pre ++ x :: r /\ ~ In x pre.
Proof.
  intros x t; induction t as [|y t IH]; intros Hin; [destruct Hin|].
  destruct (N.eq_dec y x) as [->|Hne].
  - exists [], t. split; [reflexivity | intros []].
  - destruct Hin as [->|Hin]; [congruence|].
    destruct (IH Hin) as (pre & r & -> & Hpre).
    exists (y :: pre), r. split; [reflexivity|].
    intros [->|H]; [congruence | exact (Hpre H)].
Qed.

Lemma last_split : forall (x : N) t, In x t ->
  exists r post, t = r ++ x :: post /\ ~ In x post.
Proof.
  intros x t Hin.
  destruct (first_split x (rev t)) as (pre & r & Heq & Hpre).
  { apply in_rev in Hin. exact Hin. }
  exists (rev r), (rev pre). split.
  - rewrite <- (rev_involutive t), Heq, rev_app_distr. simpl.
    rewrite <- app_assoc. reflexivity.
  - intros H. apply Hpre. apply in_rev. exact H.
Qed.

(** The first ['{'] of [a ++ '{' :: x] is in [a] or is the one shown. *)
Lemma first_lbrace_before : forall pre a r x,
  ~ In LBRACE pre -> a ++ LBRACE :: x = pre ++ LBRACE :: r -> exists d, r = d ++ x.
Proof.
  induction pre as [|p pre IH]; intros a r x Hpre Heq; simpl in *.
  - destruct a as [|y a]; simpl in Heq.
    + injection Heq as Heq. exists []. rewrite Heq. reflexivity.
    + injection Heq as Hy Heq. subst y.
      exists (a ++ [LBRACE]). rewrite <- Heq, <- app_assoc. reflexivity.
  - destruct a as [|y a]; simpl in Heq; injection Heq as Hy Heq.
    + exfalso. apply Hpre. left. symmetry. exact Hy.
    + eapply IH; [intros H; apply Hpre; right; exact H | exact Heq].
Qed.

Lemma greedy_close_none : forall t, ~ In RBRACE t -> greedy_close t = None.
Proof.
  induction t as [|c t IH]; intros H; simpl; [reflexivity|].
  rewrite IH by (intros H'; apply H; right; exact H').
  destruct (N.eqb_spec c RBRACE) as [->|]; [exfalso; apply H; left; reflexivity | reflexivity].
Qed.

Lemma greedy_close_last : forall mid post, ~ In RBRACE post ->
  greedy_close (mid ++ RBRACE :: post) = Some (mid ++ [RBRACE]).
Proof.
  induction mid as [|c mid IH]; intros post H; simpl.
  - rewrite greedy_close_none by exact H. reflexivity.
  - rewrite IH by exact H. reflexivity.
Qed.

Lemma greedy_close_some : forall t body, greedy_close t = Some body ->
  exists b c, t = b ++ RBRACE :: c /\ body = b ++ [RBRACE].
Proof.
  induction t as [|x t IH]; intros body H; simpl in H; [discriminate|].
  destruct (greedy_close t) as [p|] eqn:E.
  - injection H as <-. destruct (IH p eq_refl) as (b & c & -> & ->).
    exists (x :: b), c. split; reflexivity.
  - destruct (N.eqb_spec x RBRACE) as [->|]; [|discriminate].
    injection H as <-. exists [], t. split; reflexivity.
Qed.

Lemma brace_match_skip : forall pre t, ~ In LBRACE pre ->
  brace_match (pre ++ t) = brace_match t.
Proof.
  induction pre as [|c pre IH]; intros t H; simpl; [reflexivity|].
  destruct (N.eqb_spec c LBRACE) as [->|].
  - exfalso. apply H. left. reflexivity.
  - apply IH. intros H'. apply H. right. exact H'.
Qed.

Lemma brace_match_some : forall t s, brace_match t = Some s ->
  exists a mid c, t = a ++ LBRACE :: mid ++ RBRACE :: c /\ s = LBRACE :: mid ++ [RBRACE].
Proof.
  induction t as [|x t IH]; intros s H; simpl in H; [discriminate|].
  destruct (N.eqb_spec x LBRACE) as [->|].
  - destruct (greedy_close t) as [body|] eqn:E.
    + injection H as <-. destruct (greedy_close_some t body E) as (b & c & -> & ->).
      exists [], b, c. split; reflexivity.
    + destruct (IH s H) as (a & mid & c & -> & ->).
      exists (LBRACE :: a), mid, c. split; reflexivity.
  - destruct (IH s H) as (a & mid & c & -> & ->).
    exists (x :: a), mid, c. split; reflexivity.
Qed.

(** The span from the first ['{'] to the last ['}']. *)
Lemma brace_match_span : forall pre mid post,
  ~ In LBRACE pre -> ~ In RBRACE post ->
  brace_match (pre ++ LBRACE :: mid ++ RBRACE :: post) = Some (LBRACE :: mid ++ [RBRACE]).
Proof.
  intros pre mid post Hpre Hpost.
  rewrite brace_match_skip by exact Hpre. cbn [brace_match].
  rewrite N.eqb_refl, greedy_close_last by exact Hpost. reflexivity.
Qed.

(** ** Invariants of the [JSON.parse] machine *)

Ltac step_cases :=
  repeat match goal with
  | H : Some _ = Some _ |- _ => injection H as H; subst
  | H : None = Some _ |- _ => discriminate H
  | H : (_, _) = (_, _) |- _ => injection H as ? ?; subst
  | H : mk _ _ _ = mk _ _ _ |- _ => injection H; clear H; intros; subst
  | H : context [if ?b then _ else _] |- _ => destruct b eqn:?
  | H : context [match ?x with _ => _ end] |- _ =>
      match x with
      | context [match _ with _ => _ end] => fail 1
      | _ => destruct x eqn:?
      end
  end.

Ltac inv_close :=
  simpl in *;
  repeat match goal with
  | H : _ \/ _ |- _ => destruct H
  | H : _ /\ _ |- _ => destruct H
  | H : exists _, _ |- _ => destruct H
  end; subst; simpl in *; try discriminate;
  first
    [ solve [ left; congruence ]
    | solve [ right; repeat split; eauto; congruence ]
    | solve [ exfalso; congruence ]
    | idtac ].

Lemma idle_step_obj_started : forall m fs c st',
  idle_step m fs c = Some st' -> obj_started (mk LIdle m fs) -> obj_started st'.
Proof.
  intros m fs c st' H Hinv.
  unfold idle_step, value_start, close_arr, close_obj, close, complete in H.
  unfold obj_started in *; simpl in *.
  destruct fs as [|f0 [|f1 fs1]]; step_cases; inv_close.
Qed.

Lemma step_obj_started : forall st c st',
  step st c = Some st' -> obj_started st -> obj_started st'.
Proof.
  intros [lx m fs] c st' H Hinv.
  destruct lx; unfold step in H; simpl in H;
    try (eapply idle_step_obj_started; eassumption).
  all: unfold end_string, close, complete in H.
  all: unfold obj_started in *; simpl in *.
  all: destruct fs as [|f0 [|f1 fs1]]; step_cases; inv_close.
  all: try (eapply idle_step_obj_started; [eassumption | unfold obj_started; inv_close]).
Qed.

Lemma run_obj_started : forall t st st',
  run st t = Some st' -> obj_started st -> obj_started st'.
Proof.
  induction t as [|c t IH]; intros st st' H Hinv; simpl in H.
  - injection H as <-. exact Hinv.
  - destruct (step st c) as [st1|] eqn:E; [|discriminate].
    exact (IH st1 st' H (step_obj_started st c st1 E Hinv)).
Qed.

Lemma finish_obj_started : forall st v,
  finish st = Some v -> obj_started st -> exists l, v = JObj l.
Proof.
  intros [lx m fs] v H Hinv. unfold finish, obj_started in *; simpl in *.
  destruct lx; try discriminate.
  - destruct m; try discriminate. destruct fs; [|discriminate].
    injection H as <-. destruct Hinv as [Hb | (_ & _ & l & Hm)]; [discriminate|].
    injection Hm as ->. exists l. reflexivity.
  - unfold complete in H.
    destruct (parse_number (rev run0)) as [[mm e]|]; [|discriminate].
    destruct fs as [|f fs]; [|destruct f as [acc|acc [k|]]; discriminate].
    destruct Hinv as [Hb | (_ & Hl & _)]; discriminate.
Qed.

(** A text that starts with ['{'] parses, if at all, to an object. *)
Lemma json_parse_lbrace : forall r v,
  json_parse (LBRACE :: r) = Some v -> exists l, v = JObj l.
Proof.
  intros r v H. unfold json_parse in H. simpl in H.
  destruct (run _ r) as [st|] eqn:E; [|discriminate].
  apply (finish_obj_started st v H).
  apply (run_obj_started r _ st E). left. reflexivity.
Qed.

Ltac possible_close :=
  unfold obj_possible, obj_started in *; simpl in *;
  repeat match goal with
  | H : _ \/ _ |- _ => destruct H
  | H : _ /\ _ |- _ => destruct H
  | H : exists _, _ |- _ => destruct H
  end; subst; simpl in *; try discriminate;
  try (match goal with l : lit |- _ => destruct l; simpl in *; try discriminate end);
  first
    [ solve [ left; intuition congruence ]
    | solve [ right; left; congruence ]
    | solve [ right; right; repeat split; eauto; congruence ]
    | solve [ exfalso; congruence ]
    | idtac ].

Lemma step_obj_possible_back : forall st c st',
  step st c = Some st' -> obj_possible st' -> obj_possible st.
Proof.
  intros [lx m fs] c st' H Hinv.
  destruct lx; unfold step in H; simpl in H.
  all: unfold idle_step, value_start, close_arr, close_obj, end_string, close, complete in H.
  all: destruct fs as [|f0 [|f1 fs1]]; step_cases; possible_close.
Qed.

Lemma run_obj_possible_back : forall t st st',
  run st t = Some st' -> obj_possible st' -> obj_possible st.
Proof.
  induction t as [|c t IH]; intros st st' H Hinv; simpl in H.
  - injection H as <-. exact Hinv.
  - destruct (step st c) as [st1|] eqn:E; [|discriminate].
    exact (step_obj_possible_back st c st1 E (IH st1 st' H Hinv)).
Qed.

Ltac eqb_facts :=
  repeat match goal with
  | H : (_ =? _) = true |- _ => apply N.eqb_eq in H
  end.

(** The step that completes an object document reads its last ['}'], or
    is white space after it. *)
Lemma step_done_obj : forall st c l,
  step st c = Some (done_obj l) ->
  c = RBRACE \/ (is_json_ws c = true /\ st = done_obj l).
Proof.
  intros [lx m fs] c l H. unfold done_obj in *.
  destruct lx; unfold step in H; simpl in H.
  all: unfold idle_step, value_start, close_arr, close_obj, end_string, close, complete in H.
  all: destruct fs as [|f0 [|f1 fs1]]; step_cases; try discriminate;
       try (match goal with l : lit |- _ => destruct l; simpl in *; discriminate end);
       eqb_facts; subst; try discriminate;
       first [ solve [ left; reflexivity ] | solve [ right; split; auto ] | idtac ].
Qed.

Lemma run_ws_idle : forall t m fs, all_ws t -> run (mk LIdle m fs) t = Some (mk LIdle m fs).
Proof.
  induction t as [|c t IH]; intros m fs H; simpl; [reflexivity|].
  inversion H as [|? ? Hc Ht]; subst.
  unfold step, idle_step; simpl. rewrite Hc. apply IH. exact Ht.
Qed.

Lemma finish_done_obj : forall st l, finish st = Some (JObj l) -> st = done_obj l.
Proof.
  intros [lx m fs] l H. unfold finish in H; simpl in H.
  destruct lx; try discriminate.
  - destruct m; try discriminate. destruct fs; [|discriminate].
    injection H as ->. reflexivity.
  - destruct (parse_number (rev run0)) as [[mm e]|]; [|discriminate].
    unfold complete in H.
    destruct fs as [|f fs]; [discriminate|].
    destruct f as [acc|acc [k|]]; discriminate.
Qed.

(** White space after a complete object leaves it complete, and nothing
    else ends as one. *)
Lemma run_ws_done_obj : forall t st st' l,
  all_ws t -> run st t = Some st' -> finish st' = Some (JObj l) -> st = done_obj l.
Proof.
  induction t as [|c t IH]; intros st st' l Hws H Hf; simpl in H.
  - injection H as <-. apply finish_done_obj. exact Hf.
  - inversion Hws as [|? ? Hc Ht]; subst.
    destruct (step st c) as [st1|] eqn:E; [|discriminate].
    rewrite (IH st1 st' l Ht H Hf) in E.
    destruct (step_done_obj st c l E) as [-> | [_ ->]]; [discriminate | reflexivity].
Qed.

Lemma ws_front : forall t, all_ws t \/
  exists w c r, t = w ++ c :: r /\ all_ws w /\ is_json_ws c = false.
Proof.
  induction t as [|c t IH]; [left; constructor|].
  destruct (is_json_ws c) eqn:Hc.
  - destruct IH as [H | (w & d & r & -> & Hw & Hd)].
    + left. constructor; assumption.
    + right. exists (c :: w), d, r. split; [reflexivity | split; [constructor; assumption | exact Hd]].
  - right. exists [], c, t. split; [reflexivity | split; [constructor | exact Hc]].
Qed.

Lemma ws_back : forall t, all_ws t \/
  exists r c w, t = r ++ c :: w /\ all_ws w /\ is_json_ws c = false.
Proof.
  intros t. destruct (ws_front (rev t)) as [H | (w & c & r & Heq & Hw & Hc)].
  - left. unfold all_ws in *. rewrite <- (rev_involutive t).
    apply Forall_rev. exact H.
  - right. exists (rev r), c, (rev w). split; [|split; [apply Forall_rev; exact Hw | exact Hc]].
    rewrite <- (rev_involutive t), Heq, rev_app_distr. simpl. rewrite <- app_assoc. reflexivity.
Qed.

Lemma step_init_obj_possible : forall c st,
  is_json_ws c = false -> step init c = Some st -> obj_possible st -> c = LBRACE.
Proof.
  intros c st Hc H Hp.
  unfold step, init, idle_step, value_start in H; simpl in H. rewrite Hc in H.
  step_cases; eqb_facts; auto; possible_close.
Qed.

(** A text that parses to an object is that object's text between white
    space: it starts with its first ['{'] and ends with its last ['}']. *)
Lemma json_parse_obj_shape : forall t l, json_parse t = Some (JObj l) ->
  exists w1 mid w2, t = w1 ++ LBRACE :: mid ++ RBRACE :: w2 /\
    all_ws w1 /\ all_ws w2 /\ json_parse (LBRACE :: mid ++ [RBRACE]) = Some (JObj l).
Proof.
  intros t l H. unfold json_parse in H.
  destruct (run init t) as [st|] eqn:Erun; [|discriminate].
  unfold init in Erun.
  destruct (ws_front t) as [Hws | (w1 & c & rest & -> & Hw1 & Hc)].
  - rewrite (run_ws_idle t XValue [] Hws) in Erun. injection Erun as <-. discriminate.
  - rewrite run_app in Erun. rewrite (run_ws_idle w1 XValue [] Hw1) in Erun.
    simpl in Erun. fold init in Erun.
    destruct (step init c) as [s1|] eqn:E1; [|discriminate].
    destruct (ws_back rest) as [Hws | (mid & c2 & w2 & -> & Hw2 & Hc2)].
    + rewrite (run_ws_done_obj rest s1 st l Hws Erun H) in E1.
      destruct (step_done_obj init c l E1) as [-> | [Hc' _]].
      * discriminate.
      * rewrite Hc in Hc'. discriminate.
    + rewrite run_app in Erun.
      destruct (run s1 mid) as [s2|] eqn:E2; [|discriminate].
      simpl in Erun. destruct (step s2 c2) as [s3|] eqn:E3; [|discriminate].
      pose proof (run_ws_done_obj w2 s3 st l Hw2 Erun H) as ->.
      destruct (step_done_obj s2 c2 l E3) as [-> | [Hc2' _]]; [|congruence].
      assert (c = LBRACE) as ->.
      { apply (step_init_obj_possible c s1 Hc E1).
        apply (run_obj_possible_back (mid ++ [RBRACE]) s1 (done_obj l)).
        - rewrite run_app, E2. simpl. rewrite E3. reflexivity.
        - right. right. unfold done_obj. simpl. repeat split. exists l. reflexivity. }
      exists w1, mid, w2. split; [reflexivity|]. split; [exact Hw1|]. split; [exact Hw2|].
      unfold json_parse. cbn [run]. rewrite E1, run_app, E2. cbn [run]. rewrite E3.
      reflexivity.
Qed.

(** ** Lemmas on the handlers *)

Lemma all_ws_no_brace : forall w c, all_ws w -> is_json_ws c = false -> ~ In c w.
Proof.
  intros w c Hw Hc Hin. unfold all_ws in Hw. rewrite Forall_forall in Hw.
  rewrite (Hw c Hin) in Hc. discriminate.
Qed.

Lemma no_span_of_brace_match : forall t,
  ~ (exists a b c, t = a ++ LBRACE :: b ++ RBRACE :: c) -> brace_match t = None.
Proof.
  intros t H. destruct (brace_match t) as [s|] eqn:E; [|reflexivity].
  exfalso. apply H. destruct (brace_match_some t s E) as (a & mid & c & -> & _).
  exists a, mid, c. reflexivity.
Qed.

Lemma no_lbrace_no_span : forall t,
  ~ In LBRACE t -> ~ (exists a b c, t = a ++ LBRACE :: b ++ RBRACE :: c).
Proof.
  intros t H (a & b & c & ->). apply H. apply in_or_app. right. left. reflexivity.
Qed.

Lemma structure_ok_obj : forall l,
  structure_ok (JObj l) =
  Some (truthy_opt (assoc_last (u "appeal_strength") l) &&
        truthy_opt (assoc_last (u "confidence_score") l) &&
        truthy_opt (assoc_last (u "reasoning_summary") l)).
Proof.
  intros l. unfold structure_ok. simpl.
  destruct (truthy_opt (assoc_last (u "appeal_strength") l)); simpl; [|reflexivity].
  destruct (truthy_opt (assoc_last (u "confidence_score") l)); reflexivity.
Qed.

(** What [Part000.recover] does with a span that parses to an object. *)
Lemma part000_recover_obj : forall t s l,
  brace_match t = Some s -> json_parse s = Some (JObj l) ->
  Part000.recover t = if truthy_opt (assoc_last (u "appeal_strength") l) &&
                         truthy_opt (assoc_last (u "confidence_score") l) &&
                         truthy_opt (assoc_last (u "reasoning_summary") l)
                      then Ok200 (JObj l) else Ok200 Part000.structure_fallback.
Proof.
  intros t s l Hm Hp. unfold Part000.recover. rewrite Hm, Hp, structure_ok_obj.
  destruct (_ && _ && _); reflexivity.
Qed.

Lemma appeal_check_call : forall build recover body q k,
  appeal_check build recover body = Call q k -> forall t, k (Reply t) = recover t.
Proof.
  intros build recover body q k H t. unfold appeal_check in H.
  destruct (prop body (u "fineDetails")) as [fd|]; [|discriminate].
  destruct (prop body (u "appealReason")) as [ar|]; [|discriminate].
  destruct (negb (truthy_opt fd) || negb (truthy_opt ar)); [discriminate|].
  destruct (build fd ar); [|discriminate].
  injection H as _ <-. reflexivity.
Qed.

(** ** The claims *)

(** C9: a request to [/api/appeal-check] whose body has no [fineDetails]
    or no [appealReason] gets HTTP 400 with the message naming both fields,
    and the handler responds at once, without calling the provider; in both
    revisions. *)
Theorem appeal_check_missing_field_400 : forall l,
  assoc_last (u "fineDetails") l = None \/ assoc_last (u "appealReason") l = None ->
  ServerJs.appeal_check_handler (Some (JObj l)) = Done (Err400 missing_fields) /\
  Part000.appeal_check_handler (Some (JObj l)) = Done (Err400 missing_fields).
Proof.
  intros l H.
  unfold ServerJs.appeal_check_handler, Part000.appeal_check_handler, appeal_check; simpl.
  destruct H as [H | H]; rewrite H; simpl; [split; reflexivity|].
  rewrite orb_true_r. split; reflexivity.
Qed.

Lemma appeal_check_missing_field_400_witness :
  (assoc_last (u "fineDetails") [(u "appealReason", JStr (u "Medical emergency"))] = None \/
   assoc_last (u "appealReason") [(u "appealReason", JStr (u "Medical emergency"))] = None) /\
  ServerJs.appeal_check_handler (Some (JObj [(u "appealReason", JStr (u "Medical emergency"))]))
    = Done (Err400 missing_fields) /\
  Part000.appeal_check_handler (Some (JObj [(u "appealReason", JStr (u "Medical emergency"))]))
    = Done (Err400 missing_fields).
Proof.
  assert (H : assoc_last (u "fineDetails") [(u "appealReason", JStr (u "Medical emergency"))] = None \/
              assoc_last (u "appealReason") [(u "appealReason", JStr (u "Medical emergency"))] = None)
    by (left; reflexivity).
  split; [exact H | apply (appeal_check_missing_field_400 _ H)].
Defined.






Lemma structure_check_fails : forall k l,
  In k required_keys -> truthy_opt (assoc_last k l) = false ->
  truthy_opt (assoc_last (u "appeal_strength") l) &&
  truthy_opt (assoc_last (u "confidence_score") l) &&
  truthy_opt (assoc_last (u "reasoning_summary") l) = false.
Proof.
  intros k l Hin H. unfold required_keys in Hin. simpl in Hin.
  destruct Hin as [<- | [<- | [<- | []]]]; rewrite H;
    rewrite ?andb_false_r; reflexivity.
Qed.

Lemma structure_ok_parse_fallback : structure_ok Part000.parse_fallback = Some true.
Proof. vm_compute. reflexivity. Qed.

Lemma brace_match_lbrace : forall t s, brace_match t = Some s -> exists r, s = LBRACE :: r.
Proof.
  intros t s H. destruct (brace_match_some t s H) as (a & mid & c & _ & ->).
  eexists. reflexivity.
Qed.

(** A text that parses to an object is found by the brace regex, up to the
    surrounding whitespace. *)
Lemma brace_match_of_obj : forall t l, json_parse t = Some (JObj l) ->
  exists s, brace_match t = Some s /\ json_parse s = Some (JObj l).
Proof.
  intros t l H.
  destruct (json_parse_obj_shape t l H) as (w1 & mid & w2 & -> & H1 & H2 & Hp).
  exists (LBRACE :: mid ++ [RBRACE]). split; [|exact Hp].
  apply brace_match_span; apply all_ws_no_brace; auto.
Qed.

(** C1: for every text the provider returns, the later [/api/appeal-check]
    responds 200 with the object parsed from the brace span of the text, or
    with one of its two fallback objects, except when the text has no ['{']
    followed by a ['}']: then the recovery throws "AI response format was
    invalid" and the handler responds 500.  The earlier handler responds 200
    with its fallback object when the text is not JSON, 200 with the parsed
    value when it passes the structure check, and 500 for every parsed
    value that fails the check. *)
Theorem appeal_recovery_outcomes : forall t,
  (forall body q k, Part000.appeal_check_handler body = Call q k ->
   (brace_match t = None -> k (Reply t) = Err500 appeal_error (DMsg Part000.invalid_format)) /\
   (forall s, brace_match t = Some s ->
      (exists l, json_parse s = Some (JObj l) /\ k (Reply t) = Ok200 (JObj l)) \/
      k (Reply t) = Ok200 Part000.parse_fallback \/
      k (Reply t) = Ok200 Part000.structure_fallback)) /\
  (forall body q k, ServerJs.appeal_check_handler body = Call q k ->
   (json_parse t = None -> k (Reply t) = Ok200 ServerJs.fallback) /\
   (forall v, json_parse t = Some v -> structure_ok v = Some true -> k (Reply t) = Ok200 v) /\
   (forall v, json_parse t = Some v -> structure_ok v <> Some true ->
      exists d, k (Reply t) = Err500 appeal_error d)).
Proof.
  intros t. split.
  - intros body q k Hc. rewrite (appeal_check_call _ _ _ _ _ Hc t).
    split; [intros Hn; unfold Part000.recover; rewrite Hn; reflexivity|].
    intros s Hs. unfold Part000.recover. rewrite Hs.
    destruct (json_parse s) as [v|] eqn:Ep.
    + destruct (brace_match_lbrace _ _ Hs) as (r & ->).
      destruct (json_parse_lbrace r v Ep) as (l & ->).
      rewrite structure_ok_obj. destruct (_ && _ && _).
      * left. exists l. split; reflexivity.
      * right. right. reflexivity.
    + rewrite structure_ok_parse_fallback. right. left. reflexivity.
  - intros body q k Hc. rewrite (appeal_check_call _ _ _ _ _ Hc t).
    unfold ServerJs.recover. split; [|split].
    + intros E. rewrite E. vm_compute. reflexivity.
    + intros v E Hv. rewrite E, Hv. reflexivity.
    + intros v E Hv. rewrite E.
      destruct (structure_ok v) as [[|]|]; [congruence | eexists; reflexivity | eexists; reflexivity].
Qed.

Lemma appeal_recovery_outcomes_witness :
  (exists q k, Part000.appeal_check_handler (Some sample_request) = Call q k) /\
  (exists q k, ServerJs.appeal_check_handler (Some sample_request) = Call q k) /\
  (forall body q k, Part000.appeal_check_handler body = Call q k ->
   (brace_match (u "ok {}") = None ->
      k (Reply (u "ok {}")) = Err500 appeal_error (DMsg Part000.invalid_format)) /\
   (forall s, brace_match (u "ok {}") = Some s ->
      (exists l, json_parse s = Some (JObj l) /\ k (Reply (u "ok {}")) = Ok200 (JObj l)) \/
      k (Reply (u "ok {}")) = Ok200 Part000.parse_fallback \/
      k (Reply (u "ok {}")) = Ok200 Part000.structure_fallback)) /\
  (forall body q k, ServerJs.appeal_check_handler body = Call q k ->
   (json_parse (u "ok {}") = None -> k (Reply (u "ok {}")) = Ok200 ServerJs.fallback) /\
   (forall v, json_parse (u "ok {}") = Some v -> structure_ok v = Some true ->
      k (Reply (u "ok {}")) = Ok200 v) /\
   (forall v, json_parse (u "ok {}") = Some v -> structure_ok v <> Some true ->
      exists d, k (Reply (u "ok {}")) = Err500 appeal_error d)).
Proof.
  split; [do 2 eexists; reflexivity|]. split; [do 2 eexists; reflexivity|].
  apply (appeal_recovery_outcomes (u "ok {}")).
Defined.

(** C1 (counterexample): a refusal without braces makes the later handler
    respond 500; in the earlier one a reply that is valid JSON but not an
    assessment, such as [42], makes the structure check throw and the
    handler respond 500. *)
Lemma appeal_recovery_can_fail :
  match Part000.appeal_check_handler (Some sample_request) with
  | Call _ k => k (Reply (u "Sorry, I cannot assess this appeal."))
                = Err500 appeal_error (DMsg Part000.invalid_format)
  | Done _ => False
  end /\
  match ServerJs.appeal_check_handler (Some sample_request) with
  | Call _ k => k (Reply (u "42")) = Err500 appeal_error (DMsg ServerJs.invalid_structure)
  | Done _ => False
  end.
Proof. vm_compute. split; reflexivity. Qed.

(** C2: when the text has no ['{'] followed later by a ['}'], the later
    recovery returns no fallback: it throws "AI response format was
    invalid", and the handler responds 500 with that message.  The earlier
    recovery answers such a text with its fallback object when it is not
    JSON, and with a 500 when it is JSON (it is then no object, and fails
    the structure check). *)
Theorem appeal_no_braces_500 : forall t,
  ~ (exists a b c, t = a ++ LBRACE :: b ++ RBRACE :: c) ->
  Part000.recover t = Err500 appeal_error (DMsg Part000.invalid_format) /\
  (forall body q k, Part000.appeal_check_handler body = Call q k ->
     k (Reply t) = Err500 appeal_error (DMsg Part000.invalid_format)) /\
  (json_parse t = None -> ServerJs.recover t = Ok200 ServerJs.fallback) /\
  (forall v, json_parse t = Some v -> exists d, ServerJs.recover t = Err500 appeal_error d).
Proof.
  intros t H. assert (Hr : Part000.recover t = Err500 appeal_error (DMsg Part000.invalid_format))
    by (unfold Part000.recover; rewrite (no_span_of_brace_match t H); reflexivity).
  split; [exact Hr|]. split.
  { intros body q k Hc. rewrite (appeal_check_call _ _ _ _ _ Hc t). exact Hr. }
  unfold ServerJs.recover. split.
  - intros E. rewrite E. vm_compute. reflexivity.
  - intros v E. rewrite E. destruct v as [| | | | |l].
    1-5: eexists; reflexivity.
    exfalso. apply H. destruct (json_parse_obj_shape t l E) as (w1 & mid & w2 & -> & _).
    exists w1, mid, w2. reflexivity.
Qed.

Lemma appeal_no_braces_500_witness :
  ~ (exists a b c, u "hello" = a ++ LBRACE :: b ++ RBRACE :: c) /\
  Part000.recover (u "hello") = Err500 appeal_error (DMsg Part000.invalid_format) /\
  (forall body q k, Part000.appeal_check_handler body = Call q k ->
     k (Reply (u "hello")) = Err500 appeal_error (DMsg Part000.invalid_format)) /\
  (json_parse (u "hello") = None -> ServerJs.recover (u "hello") = Ok200 ServerJs.fallback) /\
  (forall v, json_parse (u "hello") = Some v ->
     exists d, ServerJs.recover (u "hello") = Err500 appeal_error d).
Proof.
  assert (H : ~ (exists a b c, u "hello" = a ++ LBRACE :: b ++ RBRACE :: c)).
  { apply no_lbrace_no_span. vm_compute. intros H; repeat destruct H as [H|H]; try discriminate; exact H. }
  split; [exact H | apply (appeal_no_braces_500 _ H)].
Defined.

(** C2 (counterexample): ["hello"] has no braces, and its recovery is not
    a fallback object but the 500 response. *)
Lemma appeal_no_braces_not_fallback :
  ~ In LBRACE (u "hello") /\
  Part000.recover (u "hello") = Err500 appeal_error (DMsg Part000.invalid_format) /\
  Part000.recover (u "hello") <> Ok200 Part000.parse_fallback /\
  Part000.recover (u "hello") <> Ok200 Part000.structure_fallback.
Proof.
  split; [vm_compute; intros H; repeat destruct H as [H|H]; try discriminate; exact H|].
  vm_compute. split; [reflexivity | split; discriminate].
Qed.

(** C6: whenever a ['{'] comes before a ['}'], the regex of the later
    handler selects the span from the first ['{'] of the text to its last
    ['}']. *)
Theorem brace_scan_greedy : forall t,
  (exists a b c, t = a ++ LBRACE :: b ++ RBRACE :: c) ->
  exists pre mid post, t = pre ++ LBRACE :: mid ++ RBRACE :: post /\
    ~ In LBRACE pre /\ ~ In RBRACE post /\
    brace_match t = Some (LBRACE :: mid ++ [RBRACE]).
Proof.
  intros t (a & b & c & Ht).
  assert (Hl : In LBRACE t) by (rewrite Ht; apply in_or_app; right; left; reflexivity).
  destruct (first_split _ _ Hl) as (pre & r & Hr & Hpre).
  assert (Hrb : In RBRACE r).
  { destruct (first_lbrace_before pre a r (b ++ RBRACE :: c) Hpre) as [d ->];
      [rewrite <- Ht; exact Hr|].
    apply in_or_app. right. apply in_or_app. right. left. reflexivity. }
  destruct (last_split _ _ Hrb) as (mid & post & -> & Hpost).
  exists pre, mid, post. split; [exact Hr|]. split; [exact Hpre|]. split; [exact Hpost|].
  rewrite Hr. apply brace_match_span; assumption.
Qed.

Lemma brace_scan_greedy_witness :
  exists pre mid post, u "x {a} y {b} z" = pre ++ LBRACE :: mid ++ RBRACE :: post /\
    ~ In LBRACE pre /\ ~ In RBRACE post /\
    brace_match (u "x {a} y {b} z") = Some (LBRACE :: mid ++ [RBRACE]).
Proof.
  apply brace_scan_greedy. exists (u "x "), (u "a"), (u " y {b} z"). reflexivity.
Defined.

(** C5: when the provider's text parses to an object that lacks one of
    [appeal_strength], [confidence_score] and [reasoning_summary], the later
    [/api/appeal-check] responds 200 with its fixed fallback object; the
    earlier one throws "Invalid response structure from AI" and responds
    500. *)
Theorem appeal_missing_key_fallback : forall t l,
  json_parse t = Some (JObj l) ->
  (exists k, In k required_keys /\ assoc_last k l = None) ->
  Part000.recover t = Ok200 Part000.structure_fallback /\
  (forall body q k, Part000.appeal_check_handler body = Call q k ->
     k (Reply t) = Ok200 Part000.structure_fallback) /\
  ServerJs.recover t = Err500 appeal_error (DMsg ServerJs.invalid_structure) /\
  (forall body q k, ServerJs.appeal_check_handler body = Call q k ->
     k (Reply t) = Err500 appeal_error (DMsg ServerJs.invalid_structure)).
Proof.
  intros t l Hp (key & Hin & Hk).
  assert (Hf : truthy_opt (assoc_last key l) = false) by (rewrite Hk; reflexivity).
  destruct (brace_match_of_obj t l Hp) as (s & Hs & Hps).
  assert (Hr : Part000.recover t = Ok200 Part000.structure_fallback).
  { rewrite (part000_recover_obj t s l Hs Hps).
    rewrite (structure_check_fails key l Hin Hf). reflexivity. }
  assert (Hr' : ServerJs.recover t = Err500 appeal_error (DMsg ServerJs.invalid_structure)).
  { unfold ServerJs.recover. rewrite Hp, structure_ok_obj.
    rewrite (structure_check_fails key l Hin Hf). reflexivity. }
  split; [exact Hr|]. split; [intros body q k Hc; rewrite (appeal_check_call _ _ _ _ _ Hc t); exact Hr|].
  split; [exact Hr'|]. intros body q k Hc. rewrite (appeal_check_call _ _ _ _ _ Hc t). exact Hr'.
Qed.

Lemma appeal_missing_key_fallback_witness :
  json_parse (uq " {'appeal_strength':'strong','confidence_score':90} ") =
    Some (JObj [(u "appeal_strength", JStr (u "strong")); (u "confidence_score", JNum 90 0)]) /\
  Part000.recover (uq " {'appeal_strength':'strong','confidence_score':90} ")
    = Ok200 Part000.structure_fallback /\
  (forall body q k, Part000.appeal_check_handler body = Call q k ->
     k (Reply (uq " {'appeal_strength':'strong','confidence_score':90} "))
     = Ok200 Part000.structure_fallback) /\
  ServerJs.recover (uq " {'appeal_strength':'strong','confidence_score':90} ")
    = Err500 appeal_error (DMsg ServerJs.invalid_structure) /\
  (forall body q k, ServerJs.appeal_check_handler body = Call q k ->
     k (Reply (uq " {'appeal_strength':'strong','confidence_score':90} "))
     = Err500 appeal_error (DMsg ServerJs.invalid_structure)).
Proof.
  assert (Hp : json_parse (uq " {'appeal_strength':'strong','confidence_score':90} ") =
    Some (JObj [(u "appeal_strength", JStr (u "strong")); (u "confidence_score", JNum 90 0)]))
    by (vm_compute; reflexivity).
  split; [exact Hp|]. apply (appeal_missing_key_fallback _ _ Hp).
  exists (u "reasoning_summary"). split; [simpl; auto | reflexivity].
Defined.

(** C5 (counterexample): in the earlier handler, a reply object without
    [reasoning_summary] gets no fallback object but the 500 response. *)
Lemma appeal_missing_key_500 :
  match ServerJs.appeal_check_handler (Some sample_request) with
  | Call _ k => k (Reply (uq "{'appeal_strength':'strong','confidence_score':90}"))
                = Err500 appeal_error (DMsg ServerJs.invalid_structure)
  | Done _ => False
  end.
Proof. vm_compute. reflexivity. Qed.

(** C10: an assessment whose [appeal_strength], [confidence_score] or
    [reasoning_summary] is present but falsy (such as [0] or [""]) fails the
    structure check as a missing key would: the later handler replaces it
    with its structure fallback, which differs from it, and the earlier one
    responds 500 "Invalid response structure from AI". *)
Theorem falsy_field_invalid : forall l key v,
  In key required_keys -> assoc_last key l = Some v -> truthy v = false ->
  (forall t s, brace_match t = Some s -> json_parse s = Some (JObj l) ->
     Part000.recover t = Ok200 Part000.structure_fallback) /\
  Part000.structure_fallback <> JObj l /\
  (forall t, json_parse t = Some (JObj l) ->
     ServerJs.recover t = Err500 appeal_error (DMsg ServerJs.invalid_structure)).
Proof.
  intros l key v Hin Hk Hv.
  assert (Hf : truthy_opt (assoc_last key l) = false) by (rewrite Hk; exact Hv).
  pose proof (structure_check_fails key l Hin Hf) as Hc.
  split; [|split].
  - intros t s Hs Hp. rewrite (part000_recover_obj t s l Hs Hp), Hc. reflexivity.
  - intros He. injection He as <-. unfold required_keys in Hin. simpl in Hin.
    destruct Hin as [<- | [<- | [<- | []]]]; vm_compute in Hk; injection Hk as <-;
      vm_compute in Hv; discriminate.
  - intros t Hp. unfold ServerJs.recover. rewrite Hp, structure_ok_obj, Hc. reflexivity.
Qed.

Lemma falsy_field_invalid_witness :
  In (u "confidence_score") required_keys /\
  assoc_last (u "confidence_score")
    [(u "appeal_strength", JStr (u "strong")); (u "confidence_score", JNum 0 0);
     (u "reasoning_summary", JStr (u "ok"))] = Some (JNum 0 0) /\
  truthy (JNum 0 0) = false /\
  ((forall t s, brace_match t = Some s ->
      json_parse s = Some (JObj [(u "appeal_strength", JStr (u "strong"));
        (u "confidence_score", JNum 0 0); (u "reasoning_summary", JStr (u "ok"))]) ->
      Part000.recover t = Ok200 Part000.structure_fallback) /\
   Part000.structure_fallback <> JObj [(u "appeal_strength", JStr (u "strong"));
        (u "confidence_score", JNum 0 0); (u "reasoning_summary", JStr (u "ok"))] /\
   (forall t, json_parse t = Some (JObj [(u "appeal_strength", JStr (u "strong"));
        (u "confidence_score", JNum 0 0); (u "reasoning_summary", JStr (u "ok"))]) ->
      ServerJs.recover t = Err500 appeal_error (DMsg ServerJs.invalid_structure))).
Proof.
  assert (H1 : In (u "confidence_score") required_keys) by (simpl; auto).
  assert (H2 : assoc_last (u "confidence_score")
    [(u "appeal_strength", JStr (u "strong")); (u "confidence_score", JNum 0 0);
     (u "reasoning_summary", JStr (u "ok"))] = Some (JNum 0 0)) by reflexivity.
  assert (H3 : truthy (JNum 0 0) = false) by reflexivity.
  split; [exact H1 | split; [exact H2 | split; [exact H3 |]]].
  exact (falsy_field_invalid _ _ _ H1 H2 H3).
Defined.

Lemma extract_fields_obj : forall keys l,
  extract_fields keys (JObj l) = Some (map (fun k => (k, or_default (assoc_last k l) (JStr []))) keys).
Proof.
  induction keys as [|k ks IH]; intros l; [reflexivity|].
  simpl. rewrite IH. reflexivity.
Qed.

(** C8: when the cleaned text of the extraction path parses to an object,
    the response is [{success: true, data}] where [data] has one entry per
    key, the parsed value when truthy and [""] otherwise: a missing key
    gives [""], never [null], independently of the other keys. *)
Theorem extract_defaults_empty : forall keys t l,
  json_parse (strip_fences t) = Some (JObj l) ->
  exists data,
    extract_recover keys t = Ok200 (JObj [(u "success", JBool true); (u "data", JObj data)]) /\
    map fst data = keys /\
    (forall k v, In (k, v) data ->
       v <> JNull /\
       (assoc_last k l = None -> v = JStr []) /\
       (forall w, assoc_last k l = Some w -> truthy w = true -> v = w)).
Proof.
  intros keys t l Hp.
  exists (map (fun k => (k, or_default (assoc_last k l) (JStr []))) keys).
  split; [unfold extract_recover; rewrite Hp, extract_fields_obj; reflexivity|].
  split; [rewrite map_map; apply map_id|].
  intros k v Hin. apply in_map_iff in Hin. destruct Hin as (k' & Heq & _).
  injection Heq as <- <-. unfold or_default.
  split; [|split].
  - destruct (assoc_last k' l) as [w|]; [|discriminate].
    destruct (truthy w) eqn:Ew; [|discriminate]. intros ->. discriminate.
  - intros ->. reflexivity.
  - intros w -> ->. reflexivity.
Qed.

Lemma extract_defaults_empty_witness :
  exists data,
    extract_recover Part000.extract_keys (uq "```json
{'fineAmount':'60.00','carRegistration':''}
```") = Ok200 (JObj [(u "success", JBool true); (u "data", JObj data)]) /\
    map fst data = Part000.extract_keys /\
    (forall k v, In (k, v) data ->
       v <> JNull /\
       (assoc_last k [(u "fineAmount", JStr (u "60.00")); (u "carRegistration", JStr [])] = None ->
          v = JStr []) /\
       (forall w, assoc_last k [(u "fineAmount", JStr (u "60.00")); (u "carRegistration", JStr [])]
                  = Some w -> truthy w = true -> v = w)).
Proof.
  apply extract_defaults_empty. vm_compute. reflexivity.
Defined.

(** ** Lemmas on the JSON text of an assessment *)


















Lemma structure_ok_fallback : structure_ok ServerJs.fallback = Some true.
Proof. vm_compute. reflexivity. Qed.





(** C4: the two paths use one strategy each, not the layered order.  The
    extraction path strips the fences and parses the result, with no retry
    on a brace span: its response depends on the stripped text only, and a
    failed parse is a 500.  The later appeal path neither strips fences nor
    parses directly: its response depends on the brace span of the raw text
    only (a text that parses to an object has that object as its span). *)
Theorem recovery_strategies : forall keys t,
  (forall t', strip_fences t' = strip_fences t ->
     extract_recover keys t' = extract_recover keys t) /\
  (json_parse (strip_fences t) = None ->
     extract_recover keys t = Err500 extract_error DSyntaxError) /\
  (forall t', brace_match t' = brace_match t -> Part000.recover t' = Part000.recover t) /\
  (forall l, json_parse t = Some (JObj l) ->
     exists s, brace_match t = Some s /\ json_parse s = Some (JObj l)).
Proof.
  intros keys t. split; [|split; [|split]].
  - intros t' E. unfold extract_recover. rewrite E. reflexivity.
  - intros E. unfold extract_recover. rewrite E. reflexivity.
  - intros t' E. unfold Part000.recover. rewrite E. reflexivity.
  - intros l E. exact (brace_match_of_obj t l E).
Qed.

(** C4 (counterexample): prose before the object makes the extraction
    path respond 500 where the layered order would recover the object; on
    the appeal path a fence inside the object is kept by the code and
    dropped by the layered order. *)
Lemma recovery_order_differs :
  extract_recover Part000.extract_keys (uq "Sure: {'fineAmount':'60.00'}") =
    Err500 extract_error DSyntaxError /\
  spec_layered_parse (uq "Sure: {'fineAmount':'60.00'}") =
    Some (JObj [(u "fineAmount", JStr (u "60.00"))]) /\
  Part000.recover (uq "{'appeal_strength':'strong','confidence_score':80,'reasoning_summary':'see ```json x'}") =
    Ok200 (assessment (u "strong") 80 (u "see ```json x")) /\
  spec_layered_parse (uq "{'appeal_strength':'strong','confidence_score':80,'reasoning_summary':'see ```json x'}") =
    Some (assessment (u "strong") 80 (u "see  x")).
Proof. vm_compute. repeat split. Qed.

(** ** Further properties of the handlers *)

Lemma base64_length_pos : forall n, (0 < n)%nat -> base64_length n <> 0%nat.
Proof.
  intros n H. unfold base64_length.
  pose proof (Nat.Div0.div_le_mono 3 (n + 2) 3 ltac:(lia)) as D.
  rewrite Nat.div_same in D by lia. lia.
Qed.

(** A single nonempty image always reaches the provider, with its own MIME
    type and bytes; the provider's text goes to the extraction recovery, a
    failed call gives a 500 with the provider's message. *)
Theorem extract_fine_calls_provider : forall keys fl f,
  find_file (u "image") fl = Some (FOne f) -> file_data f <> [] ->
  exists k, extract_fine keys (Some fl) = Call (VisionChat (file_mimetype f) (file_data f)) k /\
    (forall t, k (Reply t) = extract_recover keys t) /\
    (forall m, k (CallFailed m) = Err500 extract_error (DMsg m)).
Proof.
  intros keys fl f H E. cbn [extract_fine]. rewrite H.
  destruct (file_data f) as [|b bs] eqn:Ed; [congruence|].
  rewrite (proj2 (Nat.eqb_neq (List.length (b :: bs)) 0)) by (simpl; lia).
  rewrite (proj2 (Nat.eqb_neq _ 0)) by (apply base64_length_pos; simpl; lia).
  eexists. split; [reflexivity|]. split; intros; reflexivity.
Qed.

Lemma extract_fine_calls_provider_witness :
  exists k, extract_fine Part000.extract_keys
    (Some [(u "image", FOne {| file_name := u "pcn.jpg"; file_mimetype := u "image/jpeg";
                               file_data := [255; 216; 255] |})]) =
    Call (VisionChat (u "image/jpeg") [255; 216; 255]) k /\
    (forall t, k (Reply t) = extract_recover Part000.extract_keys t) /\
    (forall m, k (CallFailed m) = Err500 extract_error (DMsg m)).
Proof.
  apply (extract_fine_calls_provider Part000.extract_keys
    [(u "image", FOne {| file_name := u "pcn.jpg"; file_mimetype := u "image/jpeg";
                         file_data := [255; 216; 255] |})]
    {| file_name := u "pcn.jpg"; file_mimetype := u "image/jpeg"; file_data := [255; 216; 255] |});
    [reflexivity | discriminate].
Defined.

(** No request to the extract-fine endpoint is answered "Failed to process
    image": a nonempty buffer never has an empty base64 form. *)
Theorem extract_fine_never_process_error : forall keys files,
  extract_fine keys files <> Done (Err400 (u "Failed to process image")).
Proof.
  intros keys [fl|]; cbn [extract_fine]; [|discriminate].
  destruct (find_file (u "image") fl) as [[f|fs]|]; try discriminate.
  destruct (List.length (file_data f) =? 0)%nat eqn:E; [discriminate|].
  apply Nat.eqb_neq in E.
  rewrite (proj2 (Nat.eqb_neq _ 0)) by (apply base64_length_pos; lia). discriminate.
Qed.

Lemma extract_fields_non_object : forall keys v,
  v <> JNull -> (forall l, v <> JObj l) ->
  extract_fields keys v = Some (map (fun k => (k, JStr [])) keys).
Proof.
  intros keys v H1 H2. induction keys as [|k ks IH]; [reflexivity|].
  cbn [extract_fields]. unfold prop.
  destruct v; try congruence; rewrite IH; reflexivity.
Qed.

(** On the extraction path, a cleaned reply that is JSON [null] is a 500
    (reading a field of [null] throws), and one that is JSON but not an
    object (an array, a string, a number, a boolean) is a 200 with
    [success: true] and every field [""]. *)
Theorem extract_non_object_reply : forall keys t v,
  json_parse (strip_fences t) = Some v ->
  (v = JNull -> keys <> [] -> extract_recover keys t = Err500 extract_error DTypeError) /\
  (v <> JNull -> (forall l, v <> JObj l) ->
     extract_recover keys t =
     Ok200 (JObj [(u "success", JBool true);
                  (u "data", JObj (map (fun k => (k, JStr [])) keys))])).
Proof.
  intros keys t v H. unfold extract_recover. rewrite H. split.
  - intros -> Hk. destruct keys; [congruence|]. reflexivity.
  - intros H1 H2. rewrite extract_fields_non_object by assumption. reflexivity.
Qed.

Lemma extract_non_object_reply_witness :
  json_parse (strip_fences (uq "'no fine found'")) = Some (JStr (u "no fine found")) /\
  (JStr (u "no fine found") = JNull -> Part000.extract_keys <> [] ->
     extract_recover Part000.extract_keys (uq "'no fine found'") = Err500 extract_error DTypeError) /\
  (JStr (u "no fine found") <> JNull -> (forall l, JStr (u "no fine found") <> JObj l) ->
     extract_recover Part000.extract_keys (uq "'no fine found'") =
     Ok200 (JObj [(u "success", JBool true);
                  (u "data", JObj (map (fun k => (k, JStr [])) Part000.extract_keys))])).
Proof.
  assert (H : json_parse (strip_fences (uq "'no fine found'")) = Some (JStr (u "no fine found")))
    by (vm_compute; reflexivity).
  split; [exact H | exact (extract_non_object_reply Part000.extract_keys _ _ H)].
Defined.

Lemma replace_fence_skip : forall pat l r,
  replace_fence pat (List.length l) (l ++ r) = replace_fence pat 0 r.
Proof.
  intros pat l r. induction l as [|c l IH]; [reflexivity|].
  cbn [List.length app replace_fence]. exact IH.
Qed.

Lemma replace_fence_plain : forall p' t r, ~ In 96 t ->
  replace_fence (96 :: p') 0 (t ++ r) = t ++ replace_fence (96 :: p') 0 r.
Proof.
  intros p' t r H. induction t as [|c t IH]; [reflexivity|].
  cbn [app replace_fence is_prefix].
  rewrite (proj2 (N.eqb_neq 96 c)) by (intros <-; apply H; left; reflexivity).
  cbn [andb]. rewrite IH by (intros Hin; apply H; right; exact Hin). reflexivity.
Qed.

Lemma replace_fence_match : forall p0 p' r,
  replace_fence (p0 :: p') 0 ((p0 :: p') ++ r) =
  replace_fence (p0 :: p') 0 (match r with x :: r' => if N.eqb x NEWLINE then r' else r | [] => [] end).
Proof.
  intros p0 p' r.
  assert (Hp : forall q, is_prefix q (q ++ r) = true)
    by (induction q as [|x q IH]; [reflexivity|]; cbn [app is_prefix]; rewrite N.eqb_refl, IH; reflexivity).
  assert (Hs : forall q : jsstr, skipn (List.length q) (q ++ r) = r)
    by (induction q as [|x q IH]; [reflexivity | exact IH]).
  pose proof (Hp (p0 :: p')) as Hp'. pose proof (Hs (p0 :: p')) as Hs'. cbn [app] in Hp', Hs'.
  cbn [app replace_fence]. rewrite Hp', Hs'.
  destruct r as [|x r'].
  - replace (pred (List.length (p0 :: p') + 0)) with (List.length p') by (cbn [List.length]; lia).
    apply replace_fence_skip.
  - destruct (N.eqb x NEWLINE) eqn:Ex.
    + replace (pred (List.length (p0 :: p') + 1)) with (List.length (p' ++ [x]))
        by (rewrite length_app; cbn [List.length]; lia).
      change (p' ++ x :: r') with (p' ++ [x] ++ r'). rewrite app_assoc. apply replace_fence_skip.
    + replace (pred (List.length (p0 :: p') + 0)) with (List.length p') by (cbn [List.length]; lia).
      apply replace_fence_skip.
Qed.

Lemma drop_space_app : forall t s,
  drop_space (t ++ s) = match drop_space t with [] => drop_space s | d => d ++ s end.
Proof.
  induction t as [|c t IH]; intros s; [reflexivity|].
  cbn [app drop_space]. destruct (is_js_space c); [apply IH | reflexivity].
Qed.

Lemma drop_space_all : forall s, Forall (fun c => is_js_space c = true) s -> drop_space s = [].
Proof. induction 1 as [|c s Hc _ IH]; [reflexivity|]. cbn [drop_space]. rewrite Hc. exact IH. Qed.

Lemma trim_app_space : forall t s, Forall (fun c => is_js_space c = true) s ->
  trim (t ++ s) = trim t.
Proof.
  intros t s Hs. unfold trim. rewrite drop_space_app.
  destruct (drop_space t) as [|d ds] eqn:E.
  - rewrite (drop_space_all s Hs). reflexivity.
  - rewrite rev_app_distr, drop_space_app, drop_space_all.
    + reflexivity.
    + apply Forall_rev. exact Hs.
Qed.

Lemma replace_fence_plain_fences : forall t r, ~ In 96 t ->
  replace_fence (u "```json") 0 (t ++ r) = t ++ replace_fence (u "```json") 0 r /\
  replace_fence (u "```") 0 (t ++ r) = t ++ replace_fence (u "```") 0 r.
Proof.
  intros t r H. split; [exact (replace_fence_plain (u "``json") t r H)
                       | exact (replace_fence_plain (u "``") t r H)].
Qed.

Lemma replace_fence_open : forall t r, ~ In 96 t ->
  replace_fence (u "```json") 0 (u "```json" ++ NEWLINE :: t ++ r) =
    t ++ replace_fence (u "```json") 0 r /\
  replace_fence (u "```") 0 (u "```" ++ NEWLINE :: t ++ r) =
    t ++ replace_fence (u "```") 0 r.
Proof.
  intros t r H. destruct (replace_fence_plain_fences t r H) as [H1 H2]. split.
  - rewrite <- H1. exact (replace_fence_match 96 (u "``json") (NEWLINE :: t ++ r)).
  - rewrite <- H2. exact (replace_fence_match 96 (u "``") (NEWLINE :: t ++ r)).
Qed.

(** A reply without backticks inside [```json] or [```] fences, each on a
    line of its own, or with the closing fence right after the reply, is
    cleaned to the same text as the bare reply: the extraction path answers
    both alike. *)
Theorem extract_fenced_reply : forall keys t op cl, ~ In 96 t ->
  In op [u "```json" ++ [NEWLINE]; u "```" ++ [NEWLINE]] ->
  In cl [NEWLINE :: u "```"; u "```"] ->
  strip_fences (op ++ t ++ cl) = trim t /\ strip_fences t = trim t /\
  extract_recover keys (op ++ t ++ cl) = extract_recover keys t.
Proof.
  intros keys t op cl Ht Hop Hcl.
  destruct (replace_fence_plain_fences t [] Ht) as [P1 P2]. cbn [replace_fence] in P1, P2.
  rewrite !app_nil_r in P1, P2.
  assert (Hbare : strip_fences t = trim t)
    by (unfold strip_fences; rewrite P1, P2; reflexivity).
  assert (Hf : strip_fences (op ++ t ++ cl) = trim t).
  { unfold strip_fences. cbn [In] in Hop, Hcl.
    destruct Hop as [<- | [<- | []]]; rewrite <- app_assoc; cbn [app];
      destruct Hcl as [<- | [<- | []]].
    - rewrite (proj1 (replace_fence_open t _ Ht)).
      change (replace_fence (u "```json") 0 (NEWLINE :: u "```")) with (NEWLINE :: u "```").
      rewrite (proj2 (replace_fence_plain_fences t _ Ht)).
      change (replace_fence (u "```") 0 (NEWLINE :: u "```")) with [NEWLINE].
      apply trim_app_space. repeat constructor.
    - rewrite (proj1 (replace_fence_open t _ Ht)).
      change (replace_fence (u "```json") 0 (u "```")) with (u "```").
      rewrite (proj2 (replace_fence_plain_fences t _ Ht)).
      change (replace_fence (u "```") 0 (u "```")) with (@nil N).
      rewrite app_nil_r. reflexivity.
    - change (replace_fence (u "```json") 0 (u "```" ++ NEWLINE :: t ++ NEWLINE :: u "```"))
        with (u "```" ++ NEWLINE :: replace_fence (u "```json") 0 (t ++ NEWLINE :: u "```")).
      rewrite (proj1 (replace_fence_plain_fences t _ Ht)).
      change (replace_fence (u "```json") 0 (NEWLINE :: u "```")) with (NEWLINE :: u "```").
      rewrite (proj2 (replace_fence_open t _ Ht)).
      change (replace_fence (u "```") 0 (NEWLINE :: u "```")) with [NEWLINE].
      apply trim_app_space. repeat constructor.
    - change (replace_fence (u "```json") 0 (u "```" ++ NEWLINE :: t ++ u "```"))
        with (u "```" ++ NEWLINE :: replace_fence (u "```json") 0 (t ++ u "```")).
      rewrite (proj1 (replace_fence_plain_fences t _ Ht)).
      change (replace_fence (u "```json") 0 (u "```")) with (u "```").
      rewrite (proj2 (replace_fence_open t _ Ht)).
      change (replace_fence (u "```") 0 (u "```")) with (@nil N).
      rewrite app_nil_r. reflexivity. }
  split; [exact Hf | split; [exact Hbare|]].
  unfold extract_recover. rewrite Hf, Hbare. reflexivity.
Qed.

Lemma extract_fenced_reply_witness :
  strip_fences ((u "```json" ++ [NEWLINE]) ++ uq "{'fineAmount':'65.00'}" ++ NEWLINE :: u "```") =
    trim (uq "{'fineAmount':'65.00'}") /\
  strip_fences (uq "{'fineAmount':'65.00'}") = trim (uq "{'fineAmount':'65.00'}") /\
  extract_recover Part000.extract_keys
    ((u "```json" ++ [NEWLINE]) ++ uq "{'fineAmount':'65.00'}" ++ NEWLINE :: u "```") =
  extract_recover Part000.extract_keys (uq "{'fineAmount':'65.00'}").
Proof.
  apply extract_fenced_reply.
  - vm_compute. intros H; repeat destruct H as [H|H]; try discriminate; exact H.
  - left. reflexivity.
  - left. reflexivity.
Defined.


(** What the earlier recovery makes of each kind of reply: text that is not
    JSON gives the 200 fallback assessment; [null] makes the structure check
    throw a TypeError (500); any other non-object value fails the structure
    check (500, "Invalid response structure from AI"); an object is sent back
    as it is when its three fields are truthy, and fails the check
    otherwise. *)
Theorem serverjs_recover_outcomes : forall t,
  (json_parse t = None -> ServerJs.recover t = Ok200 ServerJs.fallback) /\
  (json_parse t = Some JNull -> ServerJs.recover t = Err500 appeal_error DTypeError) /\
  (forall v, json_parse t = Some v -> v <> JNull -> (forall l, v <> JObj l) ->
     ServerJs.recover t = Err500 appeal_error (DMsg ServerJs.invalid_structure)) /\
  (forall l, json_parse t = Some (JObj l) ->
     ServerJs.recover t =
       if truthy_opt (assoc_last (u "appeal_strength") l) &&
          truthy_opt (assoc_last (u "confidence_score") l) &&
          truthy_opt (assoc_last (u "reasoning_summary") l)
       then Ok200 (JObj l) else Err500 appeal_error (DMsg ServerJs.invalid_structure)).
Proof.
  intros t. unfold ServerJs.recover. split; [|split; [|split]].
  - intros E. rewrite E, structure_ok_fallback. reflexivity.
  - intros E. rewrite E. reflexivity.
  - intros v E Hn Ho. rewrite E.
    destruct v; try (exfalso; congruence); reflexivity.
  - intros l E. rewrite E, structure_ok_obj. destruct (_ && _ && _); reflexivity.
Qed.

(** A reply that is exactly a complete assessment object (up to surrounding
    whitespace) is sent back unchanged, and the same, by both revisions. *)
Theorem clean_reply_agrees : forall t l,
  json_parse t = Some (JObj l) ->
  Forall (fun k => truthy_opt (assoc_last k l) = true) required_keys ->
  Part000.recover t = Ok200 (JObj l) /\ ServerJs.recover t = Ok200 (JObj l).
Proof.
  intros t l Hp Hk. unfold required_keys in Hk.
  inversion Hk as [|? ? H1 Hk1]; subst. inversion Hk1 as [|? ? H2 Hk2]; subst.
  inversion Hk2 as [|? ? H3 _]; subst.
  destruct (brace_match_of_obj t l Hp) as (s & Hs & Hps). split.
  - rewrite (part000_recover_obj t s l Hs Hps), H1, H2, H3. reflexivity.
  - unfold ServerJs.recover. rewrite Hp, structure_ok_obj, H1, H2, H3. reflexivity.
Qed.

Lemma clean_reply_agrees_witness :
  json_parse (uq " {'appeal_strength':'strong','confidence_score':85,'reasoning_summary':'ok'}") =
    Some (assessment (u "strong") 85 (u "ok")) /\
  Forall (fun k => truthy_opt (assoc_last k
    [(u "appeal_strength", JStr (u "strong")); (u "confidence_score", JNum 85 0);
     (u "reasoning_summary", JStr (u "ok"))]) = true) required_keys /\
  Part000.recover (uq " {'appeal_strength':'strong','confidence_score':85,'reasoning_summary':'ok'}") =
    Ok200 (assessment (u "strong") 85 (u "ok")) /\
  ServerJs.recover (uq " {'appeal_strength':'strong','confidence_score':85,'reasoning_summary':'ok'}") =
    Ok200 (assessment (u "strong") 85 (u "ok")).
Proof.
  assert (Hp : json_parse (uq " {'appeal_strength':'strong','confidence_score':85,'reasoning_summary':'ok'}") =
    Some (assessment (u "strong") 85 (u "ok"))) by (vm_compute; reflexivity).
  assert (Hk : Forall (fun k => truthy_opt (assoc_last k
    [(u "appeal_strength", JStr (u "strong")); (u "confidence_score", JNum 85 0);
     (u "reasoning_summary", JStr (u "ok"))]) = true) required_keys)
    by (repeat constructor).
  split; [exact Hp | split; [exact Hk|]].
  exact (clean_reply_agrees _ _ Hp Hk).
Defined.

Lemma is_prefix_app : forall p t, is_prefix p t = true -> exists r, t = p ++ r.
Proof.
  induction p as [|x p IH]; intros t H; [exists t; reflexivity|].
  destruct t as [|y t]; [discriminate|]. cbn [is_prefix] in H.
  apply andb_true_iff in H. destruct H as [Hx H]. apply N.eqb_eq in Hx. subst y.
  destruct (IH t H) as [r ->]. exists r. reflexivity.
Qed.

Lemma replace_fence_other : forall x s, x <> 96 ->
  replace_fence [96; 96; 96] 0 (x :: s) = x :: replace_fence [96; 96; 96] 0 s.
Proof.
  intros x s Hx. cbn [replace_fence is_prefix].
  rewrite (proj2 (N.eqb_neq 96 x)) by congruence. reflexivity.
Qed.

(** The output of [replace(/```\n?/g, '')] contains no three backticks in a
    row: a backtick kept in front of a removed match would have started an
    earlier match. *)
Lemma replace_fence_no_fence : forall n t, (List.length t <= n)%nat ->
  forall a b, replace_fence [96; 96; 96] 0 t <> a ++ [96; 96; 96] ++ b.
Proof.
  induction n as [|n IH]; intros t Hn a b E.
  { destruct t; [|cbn in Hn; lia]. destruct a; discriminate. }
  destruct t as [|c t']; [destruct a; discriminate|].
  destruct (is_prefix [96; 96; 96] (c :: t')) eqn:Hp.
  - destruct (is_prefix_app _ _ Hp) as [r Er]. rewrite Er in E, Hn.
    rewrite replace_fence_match in E. revert E. apply IH.
    cbn [List.length app] in Hn.
    destruct r as [|x r']; [cbn; lia|].
    destruct (N.eqb x NEWLINE); cbn [List.length] in *; lia.
  - cbn [replace_fence] in E. rewrite Hp in E.
    destruct a as [|x a].
    + cbn [app] in E. injection E as -> E.
      destruct t' as [|y t''].
      * discriminate.
      * destruct (N.eq_dec y 96) as [->|Hy].
        2: { rewrite replace_fence_other in E by exact Hy. injection E as E. congruence. }
        destruct t'' as [|z t'''].
        { vm_compute in E. discriminate. }
        destruct (N.eq_dec z 96) as [->|Hz].
        { cbn [is_prefix] in Hp. discriminate. }
        cbn [replace_fence is_prefix] in E.
        rewrite (proj2 (N.eqb_neq 96 z)) in E by congruence. rewrite andb_false_r in E.
        cbn [andb] in E.
        injection E as E _. congruence.
    + injection E as _ E. revert E. apply IH. cbn in Hn. lia.
Qed.

Lemma drop_space_suffix : forall t, exists a, t = a ++ drop_space t.
Proof.
  induction t as [|c t [a IH]]; [exists []; reflexivity|].
  cbn [drop_space]. destruct (is_js_space c).
  - exists (c :: a). cbn [app]. rewrite <- IH. reflexivity.
  - exists []. reflexivity.
Qed.

Lemma trim_infix : forall t, exists a b, t = a ++ trim t ++ b.
Proof.
  intros t. destruct (drop_space_suffix t) as [a1 E1].
  destruct (drop_space_suffix (rev (drop_space t))) as [a2 E2].
  exists a1, (rev a2). unfold trim.
  rewrite E1 at 1. f_equal.
  pose proof (f_equal (@rev N) E2) as E3. rewrite rev_involutive, rev_app_distr in E3. exact E3.
Qed.

(** The text the extraction path hands to [JSON.parse] never contains three
    backticks in a row: after both replacements and the trim, no fence
    marker is left, wherever the reply had them. *)
Theorem strip_fences_no_fence : forall t a b, strip_fences t <> a ++ u "```" ++ b.
Proof.
  intros t a b E. unfold strip_fences in E.
  set (o := replace_fence (u "```") O (replace_fence (u "```json") O t)) in E.
  destruct (trim_infix o) as (a1 & b1 & Eo).
  rewrite E in Eo. change (u "```") with [96; 96; 96] in Eo, o.
  apply (replace_fence_no_fence (List.length (replace_fence (u "```json") O t))
           (replace_fence (u "```json") O t) (le_n _) (a1 ++ a) (b ++ b1)).
  fold o. rewrite Eo, <- !app_assoc. reflexivity.
Qed.




